(** * Wallfair backend: user service and Redis message router

    A shallow embedding of [src/services/user-service.js] and of the
    Redis [message] handler of [src/index.js], with the properties of the
    reward, bonus, ranking and routing paths stated over it.

    Conventions of the embedding:
    - a JavaScript [Number] that holds a count, an amount or a timestamp is a
      [Z]: the embedding covers whole amounts, and [+] on them is the sum of
      [Z], which is what [Number] computes as long as the operands and the
      result are safe integers ([isSafeInteger]); a property that depends on
      the value of a sum of amounts states that range.  A [BigInt] is a [Z]
      as well (exact integer arithmetic);
    - a string is a [string]; [undefined] is [None];
    - the [User] collection is the list of its documents;
    - an [async] function is a computation in the monad [M]: it threads the
      world (database, clock, message broker, console, wallet) and either
      returns a value or throws.  [await e] is monadic bind and
      [p.catch(h)] is [catch p h];
    - the message handler runs in the same monad over the list of the
      effects it has performed. *)

From Stdlib Require Import ZArith Lia Ascii String.
From stdpp Require Import base tactics option numbers list strings pretty.
From stdpp Require Import sorting.

Local Open Scope Z_scope.

(** ** Errors and outcomes *)

(** [ValidationError] is the error of [user.save()] on a document that
    fails the validation of its schema; it names the failing path. *)
Inductive js_error :=
  | Error (msg : string)
  | TypeError (msg : string)
  | SyntaxError (msg : string)
  | ValidationError (path : string).

Inductive outcome (A : Type) :=
  | Ok (a : A)
  | Throw (e : js_error).
Arguments Ok {A} a.
Arguments Throw {A} e.

Definition throws {A} (o : outcome A) : Prop :=
  match o with Ok _ => False | Throw _ => True end.

(** ** Documents *)

(** The fields of a [User] document that the service reads or writes.
    [username] is optional ([$exists]); [bonus] holds [bonus.name]. *)
Record User := {
  _id : string;
  username : option string;
  amountWon : Z;
  date : Z;
  status : string;
  tosConsentedAt : option string;
  currency : string;
  bonus : option string;
}.

Definition set_amountWon (v : Z) (u : User) : User :=
  {| _id := _id u; username := username u; amountWon := v; date := date u;
     status := status u; tosConsentedAt := tosConsentedAt u;
     currency := currency u; bonus := bonus u |}.

Definition set_status (v : string) (u : User) : User :=
  {| _id := _id u; username := username u; amountWon := amountWon u;
     date := date u; status := v; tosConsentedAt := tosConsentedAt u;
     currency := currency u; bonus := bonus u |}.

Definition set_tosConsentedAt (v : string) (u : User) : User :=
  {| _id := _id u; username := username u; amountWon := amountWon u;
     date := date u; status := status u; tosConsentedAt := Some v;
     currency := currency u; bonus := bonus u |}.

Definition set_currency (v : string) (u : User) : User :=
  {| _id := _id u; username := username u; amountWon := amountWon u;
     date := date u; status := status u; tosConsentedAt := tosConsentedAt u;
     currency := v; bonus := bonus u |}.

Definition set_bonus (v : string) (u : User) : User :=
  {| _id := _id u; username := username u; amountWon := amountWon u;
     date := date u; status := status u; tosConsentedAt := tosConsentedAt u;
     currency := currency u; bonus := Some v |}.

(** ** Messages, log lines, and the world *)

(** [awardData]: [type], [total] and [award]; a field never assigned is
    [undefined]. *)
Record AwardData := {
  award_type : string;
  award_total : option Z;
  award : option Z;
}.

(** The object given to [JSON.stringify] in each [amqp.send]; the [event]
    tag is the constant of [notificationEvents] and is kept by the
    constructor. *)
Inductive payload :=
  | EVENT_USER_AWARD (producerId : string) (awardData : option AwardData)
      (broadcast : bool)
  | EVENT_USER_SET_CURRENCY (producerId : string) (data_currency : string).

Record AmqpMessage := {
  exchange : string;
  routingKey : string;
  content : payload;
}.

Inductive LogLine :=
  | console_log (text : string)
  | console_error (tag : string) (err : js_error).

(** [totalBets] of the object that [getUserBetsAmount] resolves to. *)
Record BetsAmount := { totalBets : option Z }.

Record World := {
  users : list User;                        (* the User collection *)
  now : Z;                                  (* the clock, epoch ms *)
  betsAmount : string -> outcome BetsAmount; (* statistics-service *)
  amqp : list AmqpMessage;                  (* messages sent, oldest first *)
  console : list LogLine;                   (* lines written, oldest first *)
  wallet : list (Z * string);               (* bonus transfers, oldest first *)
}.

Definition with_users (us : list User) (w : World) : World :=
  {| users := us; now := now w; betsAmount := betsAmount w; amqp := amqp w;
     console := console w; wallet := wallet w |}.

Definition with_amqp (ms : list AmqpMessage) (w : World) : World :=
  {| users := users w; now := now w; betsAmount := betsAmount w; amqp := ms;
     console := console w; wallet := wallet w |}.

Definition with_console (ls : list LogLine) (w : World) : World :=
  {| users := users w; now := now w; betsAmount := betsAmount w;
     amqp := amqp w; console := ls; wallet := wallet w |}.

Definition with_wallet (ts : list (Z * string)) (w : World) : World :=
  {| users := users w; now := now w; betsAmount := betsAmount w;
     amqp := amqp w; console := console w; wallet := ts |}.

(** ** The monad of asynchronous service code *)

(** A computation over a state [S] that returns a value or throws; the
    state reached is kept in both cases. *)
Definition run (S A : Type) : Type := S -> outcome A * S.

(** Service code runs over the world. *)
Definition M (A : Type) : Type := run World A.

Definition ret {S A} (a : A) : run S A := fun s => (Ok a, s).

Definition throw {S A} (e : js_error) : run S A := fun s => (Throw e, s).

Definition bind {S A B} (m : run S A) (k : A -> run S B) : run S B :=
  fun s =>
    match m s with
    | (Ok a, s') => k a s'
    | (Throw e, s') => (Throw e, s')
    end.

Definition catch {S A} (m : run S A) (h : js_error -> run S A) : run S A :=
  fun s =>
    match m s with
    | (Ok a, s') => (Ok a, s')
    | (Throw e, s') => h e s'
    end.

(** The value or the error of a synchronous expression. *)
Definition eval {S A} (o : outcome A) : run S A := fun s => (o, s).

Declare Scope js_scope.
Delimit Scope js_scope with js.
Notation "'let*' x := m 'in' k" := (bind m (fun x => k))
  (at level 10, x name, m at level 100, k at level 200) : js_scope.
Notation "m ;; k" := (bind m (fun _ => k))
  (at level 100, k at level 200, right associativity) : js_scope.
Local Open Scope js_scope.

Definition get_world : M World := fun w => (Ok w, w).
Definition modify (f : World -> World) : M unit := fun w => (Ok tt, f w).

Definition log_info (text : string) : M unit :=
  modify (fun w => with_console (console w ++ [console_log text]) w).

Definition log_error (tag : string) (err : js_error) : M unit :=
  modify (fun w => with_console (console w ++ [console_error tag err]) w).

Definition amqp_send (ex key : string) (p : payload) : M unit :=
  modify (fun w =>
    with_amqp (amqp w ++ [{| exchange := ex; routingKey := key;
                             content := p |}]) w).

(** ** The [User] model of the database *)

Definition has_id (id : string) (u : User) : bool := String.eqb (_id u) id.

(** [User.findById(id)]: the document with that [_id], or [null]. *)
Definition findById (id : string) (w : World) : option User :=
  List.find (has_id id) (users w).

Definition User_findById (id : string) : M (option User) :=
  fun w => (Ok (findById id w), w).

(** [user.save()] writes the modified paths of the document back to the
    stored document with the same [_id]. *)
Fixpoint update_by_id (id : string) (f : User -> User) (us : list User)
  : list User :=
  match us with
  | [] => []
  | u :: us' =>
      if has_id id u then f u :: us' else u :: update_by_id id f us'
  end.

Definition save (id : string) (modified : User -> User) : M unit :=
  fun w =>
    match findById id w with
    | Some _ => (Ok tt, with_users (update_by_id id modified (users w)) w)
    | None => (Throw (Error "DocumentNotFoundError"), w)
    end.

(** ** [getTotalWin] *)

Definition INITIAL_LIQUIDITY : Z := 5000.

Definition getTotalWin (balance : Z) : Z :=
  let value := balance - INITIAL_LIQUIDITY in
  if value <? 0 then 0 else value.

(** ** [getRankByUserId] *)

(** [.sort({ amountWon: -1, date: -1 })]: [u] is placed no later than [v]
    when it has won more, or as much and is not older. *)
Definition ranks_before (u v : User) : Prop :=
  amountWon v < amountWon u \/ (amountWon u = amountWon v /\ date v <= date u).

#[global] Instance ranks_before_dec u v : Decision (ranks_before u v).
Proof. unfold ranks_before. apply _. Defined.

(** [User.find({ username: { $exists: true } }).sort(...)]. *)
Definition find_ranked (w : World) : list User :=
  merge_sort ranks_before (filter (fun u => is_Some (username u)) (users w)).

Record Ranking := { rank : Z; toNextRank : Z }.

(** The variables of the scanning loop: the index [i], [lastDiffAmount] and
    [ranking]. *)
Record Scan := {
  scan_i : Z;
  lastDiffAmount : Z;
  ranking : Ranking;
}.

Definition scan_init : Scan :=
  {| scan_i := 0; lastDiffAmount := 0;
     ranking := {| rank := 0; toNextRank := 0 |} |}.

(** One iteration of the [for] loop, on [users[i]]. *)
Definition scan_step (userId : string) (st : Scan) (u : User) : Scan :=
  let i := scan_i st in
  let ranking' :=
    if has_id userId u then
      {| rank := i + 1;
         toNextRank := if i =? 0 then 0 else lastDiffAmount st - amountWon u |}
    else ranking st in
  let last' :=
    if (lastDiffAmount st =? 0) || negb (lastDiffAmount st =? amountWon u)
    then amountWon u else lastDiffAmount st in
  {| scan_i := i + 1; lastDiffAmount := last'; ranking := ranking' |}.

Definition scan (userId : string) (us : list User) (st : Scan) : Scan :=
  fold_left (scan_step userId) us st.

Definition getRankByUserId (userId : string) : M Ranking :=
  let* w := get_world in
  let users := find_ranked w in
  ret (ranking (scan userId users scan_init)).



(** The amount between a position and the one above it; 0 at the top. *)
Definition gap_above (us : list User) (i : nat) : Z :=
  match i with
  | O => 0
  | S j =>
      match us !! j, us !! i with
      | Some above, Some u => amountWon above - amountWon u
      | _, _ => 0
      end
  end.

(** The previous distinct score of the user at position [i] of a ranked
    list, in the words of the specification: the nearest score above the
    user that differs from the user's own; none when every user above has
    the same score. *)
Definition previous_distinct_score (us : list User) (i : nat) : option Z :=
  match us !! i with
  | Some u =>
      last (filter (fun s => s <> amountWon u) (amountWon <$> take i us))
  | None => None
  end.

(** ** Minting and award events *)

(** [mintUser]: throws for every input. *)
Definition mintUser (userId : string) (amount : Z) : M unit :=
  throw (Error "Not supported").

(** Truthiness of a value that is a number or [undefined]. *)
Definition truthy (v : option Z) : bool :=
  match v with
  | Some n => negb (n =? 0)
  | None => false
  end.

(** [createUserAwardEvent({ userId, awardData, broadcast = false })]. *)
Definition createUserAwardEvent (userId : string)
    (awardData : option AwardData) (broadcast : option bool) : M unit :=
  let broadcast := default false broadcast in
  (if truthy (awardData ≫= award) then
     catch (mintUser userId (default 0 (awardData ≫= award)))
           (fun err => log_error "award mintUser" err)
   else ret tt) ;;
  amqp_send "universal_events" "event.user_award"
    (EVENT_USER_AWARD userId awardData broadcast).

(** [getUserBetsAmount] of the statistics service: the answer that the world
    holds for the user. *)
Definition getUserBetsAmount (userId : string) : M BetsAmount :=
  fun w => (betsAmount w userId, w).

(** [v || 0] on a number or [undefined]. *)
Definition or_zero (v : option Z) : Z :=
  if truthy v then default 0 v else 0.

(** [list.includes(x)] on numbers. *)
Definition includes (l : list Z) (x : Z) : bool := existsb (Z.eqb x) l.

Definition milestones : list Z := [5; 20; 50; 100; 150].

Section Constants.

(** [WFAIR_REWARDS.totalBets] of [util/constants]: the reward table,
    indexed by milestone; a missing key reads as [undefined]. *)
Variable WFAIR_REWARDS_totalBets : Z -> option Z.

Definition checkTotalBetsAward (userId : string) : M unit :=
  let awardData :=
    {| award_type := "TOTAL_BETS_ABOVE_VALUE"; award_total := None;
       award := None |} in
  let* totalUserBets :=
    catch (let* r := getUserBetsAmount userId in ret (Some r))
          (fun err => log_error "getUserBetsAmount" err ;; ret None) in
  let total := or_zero (totalUserBets ≫= totalBets) in
  let awardData :=
    {| award_type := award_type awardData; award_total := Some total;
       award := award awardData |} in
  if includes milestones total then
    let awardData :=
      {| award_type := award_type awardData; award_total := Some total;
         award := WFAIR_REWARDS_totalBets total |} in
    catch (createUserAwardEvent userId (Some awardData) None)
          (fun err => log_error "createUserAwardEvent" err)
  else ret tt.

End Constants.

(** ** Numbers and dates as text *)

Definition code (c : ascii) : Z := Z.of_N (N_of_ascii c).
Definition char (n : Z) : ascii := ascii_of_N (Z.to_N n).

(** The decimal digits of [x] before [acc], least significant digit first
    to be written; one unit of fuel per digit. *)
Fixpoint decimal_from (fuel : nat) (x : Z) (acc : string) : string :=
  match fuel with
  | O => acc
  | S fuel' =>
      let acc' := String (char (48 + x mod 10)) acc in
      if x <? 10 then acc' else decimal_from fuel' (x / 10) acc'
  end.

(** ['' + x] for an integer [x] from 0 to below 10^21: its decimal digits.
    A number has no more decimal digits than binary ones. *)
Definition decimal (x : Z) : string :=
  decimal_from (S (Z.to_nat (Z.log2 x))) x EmptyString.

(** [n] zeros. *)
Fixpoint zeros (n : nat) : string :=
  match n with
  | O => EmptyString
  | S n' => String "0" (zeros n')
  end.

(** The decimal digits of [x], with zeros in front up to [n] characters. *)
Definition padded (n : nat) (x : Z) : string :=
  let digits := decimal x in
  zeros (n - String.length digits) +:+ digits.

(** The year, the month (from 0) and the day of the month of a day counted
    from 1 January 1970, in the Gregorian calendar: the day is placed in its
    cycle of 400 years, counted from 1 March. *)
Definition date_of_day (day : Z) : Z * Z * Z :=
  let z := day + 719468 in
  let era := z / 146097 in
  let day_of_era := z - era * 146097 in
  let year_of_era :=
    (day_of_era - day_of_era / 1460 + day_of_era / 36524
     - day_of_era / 146096) / 365 in
  let day_of_year :=
    day_of_era - (365 * year_of_era + year_of_era / 4 - year_of_era / 100) in
  let mp := (5 * day_of_year + 2) / 153 in
  let date := day_of_year - (153 * mp + 2) / 5 + 1 in
  let month := if mp <? 10 then mp + 2 else mp - 10 in
  let year := year_of_era + era * 400 + (if month <=? 1 then 1 else 0) in
  (year, month, date).

Definition week_days : list string :=
  ["Sun"; "Mon"; "Tue"; "Wed"; "Thu"; "Fri"; "Sat"].

Definition months : list string :=
  ["Jan"; "Feb"; "Mar"; "Apr"; "May"; "Jun";
   "Jul"; "Aug"; "Sep"; "Oct"; "Nov"; "Dec"].

Definition name_of (names : list string) (k : Z) : string :=
  default EmptyString (names !! Z.to_nat k).

(** The time values of a [Date]: at most 8.64e15 milliseconds either side
    of the epoch. *)
Definition time_value (t : Z) : Prop :=
  - 8640000000000000 <= t <= 8640000000000000.

(** [new Date(t).toUTCString()] for a time [t] in epoch milliseconds: the
    week day, the day, the month, the year and the time of day down to the
    second, as in [Thu, 01 Jan 1970 00:00:00 GMT]. *)
Definition toUTCString (t : Z) : string :=
  if (t <? - 8640000000000000) || (8640000000000000 <? t)
  then "Invalid Date"
  else
    let day := t / 86400000 in
    let '(year, month, date) := date_of_day day in
    name_of week_days ((day + 4) mod 7) +:+ ", " +:+
    padded 2 date +:+ " " +:+ name_of months month +:+ " " +:+
    (if year <? 0 then "-" else EmptyString) +:+ padded 4 (Z.abs year)
    +:+ " " +:+
    padded 2 ((t / 3600000) mod 24) +:+ ":" +:+
    padded 2 ((t / 60000) mod 60) +:+ ":" +:+
    padded 2 ((t / 1000) mod 60) +:+ " GMT".

(** ** Per-user mutations *)

(** [tosConsentedAt] is assigned the text [new Date().toUTCString()]. *)
Definition updateUserConsent (userId : string) : M User :=
  let* user := User_findById userId in
  match user with
  | None => throw (Error "NOT_FOUND")
  | Some u =>
      let* w := get_world in
      let tosConsentedAt := toUTCString (now w) in
      save userId (set_tosConsentedAt tosConsentedAt) ;;
      ret (set_tosConsentedAt tosConsentedAt u)
  end.

Definition CURRENCIES : list string := ["WFAIR"; "EUR"; "USD"].

(** [preferences.currency] is a string or [undefined]. *)
Record Preferences := { pref_currency : option string }.

(** [CURRENCIES.includes(c)]. *)
Definition valid_currency (c : option string) : bool :=
  match c with
  | Some s => existsb (String.eqb s) CURRENCIES
  | None => false
  end.

(** The text of [c] inside a template literal. *)
Definition show_currency (c : option string) : string :=
  default "undefined" c.

Definition null_preferences : js_error :=
  TypeError "Cannot read properties of null (reading 'preferences')".

Definition invalid_currency (c : option string) : js_error :=
  Error ("User validation failed. Invalid currency " +:+ show_currency c).

Definition updateUserPreferences (userId : string)
    (preferences : option Preferences) : M User :=
  let* user := User_findById userId in
  let* user :=
    match preferences with
    | Some p =>
        let valid := valid_currency (pref_currency p) in
        if negb valid then
          throw (invalid_currency (pref_currency p))
        else
          match user, pref_currency p with
          | None, _ => throw null_preferences
          | Some u, Some c => ret (Some (set_currency c u))
          | Some u, None => ret (Some u)
          end
    | None => ret user
    end in
  match user with
  | None => throw null_preferences
  | Some u =>
      amqp_send "universal_events" "event.user_set_currency"
        (EVENT_USER_SET_CURRENCY userId (currency u)) ;;
      save userId (match preferences with
                   | Some _ => set_currency (currency u)
                   | None => fun d => d
                   end) ;;
      ret u
  end.

(** [Number.MAX_SAFE_INTEGER] and [Number.isSafeInteger]: the integers that
    a [Number] holds exactly.  A sum or a difference of two of them that is
    one of them as well is computed exactly. *)
Definition MAX_SAFE_INTEGER : Z := 2 ^ 53 - 1.

Definition isSafeInteger (x : Z) : Prop :=
  - MAX_SAFE_INTEGER <= x <= MAX_SAFE_INTEGER.

(** [increaseAmountWon]: the callback given to [withTransaction], and the
    [try]/[catch] around it.  The query and the save of the callback are
    issued without the session, so each is an operation of its own on the
    collection; [+amount] is the number [amount], a whole amount here, and
    the sum is that of safe integers. *)
Definition amountWon_callback (userId : string) (amount : Z) : M unit :=
  let* user := User_findById userId in
  match user with
  | Some u => save userId (set_amountWon (amountWon u + amount))
  | None => ret tt
  end.

Definition increaseAmountWon (userId : string) (amount : Z) : M unit :=
  catch (amountWon_callback userId amount)
        (fun err => log_error "" err ;; throw err).

(** Modelled from the spec: the [User] schema is declared outside the
    sources at hand.  Its [status] path is enumerated, "a status (active |
    banned)", and these are the two values that the service itself assigns
    in [updateBanDeadline]. *)
Definition USER_STATUS : list string := ["active"; "banned"].

Definition valid_status (status : string) : bool :=
  existsb (String.eqb status) USER_STATUS.

(** [user.save()] validates the modified [status] against the schema before
    it writes: a value outside the enumeration is refused with a
    [ValidationError] and nothing is stored. *)
Definition updateStatus (userId : string) (status : string) : M unit :=
  let* user := User_findById userId in
  match user with
  | Some u =>
      if valid_status status then save userId (set_status status)
      else throw (ValidationError "status")
  | None => throw (Error "User does not exist")
  end.

(** ** Registration bonus *)

(** An entry of [BONUS_TYPES] of [util/constants].  [endDate] is kept as
    the value of [new Date(endDate)]: epoch milliseconds, or [None] for
    an invalid date. *)
Record BonusType := {
  bonus_type : string;
  bonus_amount : Z;
  bonus_endDate : option Z;
}.

(** [a < b] on dates: false when either is invalid. *)
Definition date_lt (a b : option Z) : bool :=
  match a, b with
  | Some x, Some y => x <? y
  | _, _ => false
  end.

Section Bonus.

Variable LAUNCH_1k_500 : BonusType.

(** [User.find({ 'bonus.name': type })]. *)
Definition find_bonus (w : World) : list User :=
  filter (fun u => bonus u = Some (bonus_type LAUNCH_1k_500)) (users w).

(** Modelled from the spec: [walletUtil.transferBonus] of [util/wallet]
    is not part of the sources at hand.  Granting the bonus credits the
    amount to the user and records on the user which promotional bonus
    was granted. *)
Definition transferBonus (amount : Z) (userId : string) : M unit :=
  modify (fun w =>
    with_wallet (wallet w ++ [(amount, userId)])
      (with_users
         (update_by_id userId (set_bonus (bonus_type LAUNCH_1k_500))
            (users w)) w)).

Definition checkUserRegistrationBonus (userId : string) : M unit :=
  let bonusValidUntil := bonus_endDate LAUNCH_1k_500 in
  let* w := get_world in
  let now := Some (now w) in
  let validUntil := bonusValidUntil in
  if date_lt validUntil now then ret tt
  else
    let totalUsers := 1000 in
    let alreadyRegistered := find_bonus w in
    if Z.of_nat (length alreadyRegistered) <=? totalUsers then
      transferBonus (bonus_amount LAUNCH_1k_500) userId
    else ret tt.

End Bonus.

(** The existing allocations of a bonus, in the words of the specification:
    the number of users on whom a bonus of that name is recorded. *)
Fixpoint existing_allocations (type : string) (us : list User) : nat :=
  match us with
  | [] => 0
  | u :: us' =>
      (if decide (bonus u = Some type) then 1 else 0)
      + existing_allocations type us'
  end.

(** ** [JSON.parse] *)

(** A decoded JSON value.  A number is kept as its decimal literal,
    [mantissa * 10 ^ exponent]; a string is kept in UTF-8; the members of an
    object are kept in the order of the text, and the last member of a given
    name is the one that a property read sees. *)
#[local] Unset Elimination Schemes.
Inductive json :=
  | JNull
  | JBool (b : bool)
  | JNumber (mantissa exponent : Z)
  | JString (s : string)
  | JArray (items : list json)
  | JObject (members : list (string * json)).
#[local] Set Elimination Schemes.

(** What a parsing function returns: a value and the rest of the text, a
    syntax error, or the sign that its fuel ran out. *)
Inductive parsed (A : Type) :=
  | Parsed (a : A) (rest : string)
  | Unexpected
  | Exhausted.
Arguments Parsed {A} a rest.
Arguments Unexpected {A}.
Arguments Exhausted {A}.

Definition is_ws (c : ascii) : bool :=
  let n := code c in (n =? 32) || (n =? 9) || (n =? 10) || (n =? 13).

Definition is_digit (c : ascii) : bool :=
  let n := code c in (48 <=? n) && (n <=? 57).

Fixpoint skip_ws (s : string) : string :=
  match s with
  | String c r => if is_ws c then skip_ws r else s
  | EmptyString => s
  end.

(** Reads the longest run of digits: its value after [acc], its length and
    the rest. *)
Fixpoint read_digits (s : string) (acc : Z) (n : Z) : Z * Z * string :=
  match s with
  | String c r =>
      if is_digit c then read_digits r (10 * acc + (code c - 48)) (n + 1)
      else (acc, n, s)
  | EmptyString => (acc, n, s)
  end.

(** [int]: a single [0], or a digit from 1 to 9 followed by digits. *)
Definition read_int (s : string) : parsed Z :=
  match s with
  | String c r =>
      if code c =? 48 then Parsed 0 r
      else if is_digit c then
        let '(v, _, r') := read_digits s 0 0 in Parsed v r'
      else Unexpected
  | EmptyString => Unexpected
  end.

(** [frac]: nothing, or a dot and at least one digit.  Returns the digits
    appended to [int] and their number. *)
Definition read_frac (int : Z) (s : string) : parsed (Z * Z) :=
  match s with
  | String c r =>
      if code c =? 46 then
        let '(v, n, r') := read_digits r int 0 in
        if n =? 0 then Unexpected else Parsed (v, n) r'
      else Parsed (int, 0) s
  | EmptyString => Parsed (int, 0) s
  end.

(** [exp]: nothing, or [e] or [E], an optional sign and at least one
    digit. *)
Definition read_exp (s : string) : parsed Z :=
  match s with
  | String c r =>
      if (code c =? 101) || (code c =? 69) then
        let '(sign, r1) :=
          match r with
          | String d r' =>
              if code d =? 45 then (-1, r')
              else if code d =? 43 then (1, r')
              else (1, r)
          | EmptyString => (1, r)
          end in
        let '(v, n, r2) := read_digits r1 0 0 in
        if n =? 0 then Unexpected else Parsed (sign * v) r2
      else Parsed 0 s
  | EmptyString => Parsed 0 s
  end.

Definition read_number (s : string) : parsed json :=
  let '(sign, s1) :=
    match s with
    | String c r => if code c =? 45 then (-1, r) else (1, s)
    | EmptyString => (1, s)
    end in
  match read_int s1 with
  | Parsed i s2 =>
      match read_frac i s2 with
      | Parsed (m, n) s3 =>
          match read_exp s3 with
          | Parsed e s4 => Parsed (JNumber (sign * m) (e - n)) s4
          | Unexpected => Unexpected
          | Exhausted => Exhausted
          end
      | Unexpected => Unexpected
      | Exhausted => Exhausted
      end
  | Unexpected => Unexpected
  | Exhausted => Exhausted
  end.

(** *** String literals *)

Definition hex_value (c : ascii) : option Z :=
  let n := code c in
  if (48 <=? n) && (n <=? 57) then Some (n - 48)
  else if (97 <=? n) && (n <=? 102) then Some (n - 87)
  else if (65 <=? n) && (n <=? 70) then Some (n - 55)
  else None.

(** The four hexadecimal digits of a [\u] escape. *)
Definition hex4 (a b c d : ascii) : option Z :=
  match hex_value a, hex_value b, hex_value c, hex_value d with
  | Some x3, Some x2, Some x1, Some x0 =>
      Some (((x3 * 16 + x2) * 16 + x1) * 16 + x0)
  | _, _, _, _ => None
  end.

(** A piece of a string literal: a byte of the text, or the code unit of a
    [\u] escape. *)
Inductive piece :=
  | byte (c : ascii)
  | unit16 (u : Z).

Definition is_high_surrogate (u : Z) : bool := (55296 <=? u) && (u <=? 56319).
Definition is_low_surrogate (u : Z) : bool := (56320 <=? u) && (u <=? 57343).

(** UTF-8 of a code point (a lone surrogate is written in three bytes). *)
Definition utf8 (cp : Z) : list ascii :=
  if cp <? 128 then [char cp]
  else if cp <? 2048 then
    [char (192 + cp / 64); char (128 + cp mod 64)]
  else if cp <? 65536 then
    [char (224 + cp / 4096); char (128 + (cp / 64) mod 64);
     char (128 + cp mod 64)]
  else
    [char (240 + cp / 262144); char (128 + (cp / 4096) mod 64);
     char (128 + (cp / 64) mod 64); char (128 + cp mod 64)].

(** The characters of a literal from its pieces; a high surrogate followed
    by a low one is a single code point. *)
Fixpoint encode_pieces (ps : list piece) : list ascii :=
  match ps with
  | [] => []
  | byte c :: ps' => c :: encode_pieces ps'
  | unit16 u :: ps' =>
      match ps' with
      | unit16 v :: ps'' =>
          if is_high_surrogate u && is_low_surrogate v then
            utf8 (65536 + (u - 55296) * 1024 + (v - 56320))
              ++ encode_pieces ps''
          else utf8 u ++ encode_pieces ps'
      | _ => utf8 u ++ encode_pieces ps'
      end
  end.

(** The pieces of a string literal, after its opening quote, up to the
    closing quote; [acc] holds the pieces read so far, last first. *)
Fixpoint read_pieces (s : string) (acc : list piece) : parsed (list piece) :=
  match s with
  | EmptyString => Unexpected
  | String c r =>
      if code c =? 34 then Parsed (rev acc) r
      else if code c =? 92 then
        match r with
        | String e r' =>
            let n := code e in
            if (n =? 34) || (n =? 92) || (n =? 47) then
              read_pieces r' (byte e :: acc)
            else if n =? 98 then read_pieces r' (byte (char 8) :: acc)
            else if n =? 102 then read_pieces r' (byte (char 12) :: acc)
            else if n =? 110 then read_pieces r' (byte (char 10) :: acc)
            else if n =? 114 then read_pieces r' (byte (char 13) :: acc)
            else if n =? 116 then read_pieces r' (byte (char 9) :: acc)
            else if n =? 117 then
              match r' with
              | String h3 (String h2 (String h1 (String h0 r''))) =>
                  match hex4 h3 h2 h1 h0 with
                  | Some u => read_pieces r'' (unit16 u :: acc)
                  | None => Unexpected
                  end
              | _ => Unexpected
              end
            else Unexpected
        | EmptyString => Unexpected
        end
      else if code c <? 32 then Unexpected
      else read_pieces r (byte c :: acc)
  end.

Definition read_string (s : string) : parsed string :=
  match read_pieces s [] with
  | Parsed ps r => Parsed (string_of_list_ascii (encode_pieces ps)) r
  | Unexpected => Unexpected
  | Exhausted => Exhausted
  end.

(** *** Values *)

(** [s] without the prefix [p], when it starts with it. *)
Fixpoint strip_prefix (p s : string) : option string :=
  match p, s with
  | EmptyString, _ => Some s
  | String a p', String b s' =>
      if Ascii.eqb a b then strip_prefix p' s' else None
  | String _ _, EmptyString => None
  end.

Definition read_literal (s : string) : parsed json :=
  match strip_prefix "true" s with
  | Some r => Parsed (JBool true) r
  | None =>
      match strip_prefix "false" s with
      | Some r => Parsed (JBool false) r
      | None =>
          match strip_prefix "null" s with
          | Some r => Parsed JNull r
          | None => Unexpected
          end
      end
  end.

(** [parse_value] reads one value after optional white space;
    [parse_elements] reads the elements of an array after its bracket, and
    [parse_members] the members of an object after its brace, both non
    empty.  Each call spends one unit of fuel. *)
Fixpoint parse_value (fuel : nat) (s : string) : parsed json :=
  match fuel with
  | O => Exhausted
  | S fuel =>
      match skip_ws s with
      | EmptyString => Unexpected
      | String c r =>
          let n := code c in
          if n =? 123 then
            match skip_ws r with
            | String c' r' =>
                if code c' =? 125 then Parsed (JObject []) r'
                else parse_members fuel r []
            | EmptyString => Unexpected
            end
          else if n =? 91 then
            match skip_ws r with
            | String c' r' =>
                if code c' =? 93 then Parsed (JArray []) r'
                else parse_elements fuel r []
            | EmptyString => Unexpected
            end
          else if n =? 34 then
            match read_string r with
            | Parsed str r' => Parsed (JString str) r'
            | Unexpected => Unexpected
            | Exhausted => Exhausted
            end
          else if (n =? 45) || is_digit c then read_number (String c r)
          else read_literal (String c r)
      end
  end
with parse_elements (fuel : nat) (s : string) (acc : list json)
  : parsed json :=
  match fuel with
  | O => Exhausted
  | S fuel =>
      match parse_value fuel s with
      | Parsed v r =>
          match skip_ws r with
          | String c r' =>
              if code c =? 44 then parse_elements fuel r' (v :: acc)
              else if code c =? 93 then Parsed (JArray (rev (v :: acc))) r'
              else Unexpected
          | EmptyString => Unexpected
          end
      | Unexpected => Unexpected
      | Exhausted => Exhausted
      end
  end
with parse_members (fuel : nat) (s : string) (acc : list (string * json))
  : parsed json :=
  match fuel with
  | O => Exhausted
  | S fuel =>
      match skip_ws s with
      | String q r =>
          if code q =? 34 then
            match read_string r with
            | Parsed k r1 =>
                match skip_ws r1 with
                | String c r2 =>
                    if code c =? 58 then
                      match parse_value fuel r2 with
                      | Parsed v r3 =>
                          match skip_ws r3 with
                          | String d r4 =>
                              if code d =? 44 then
                                parse_members fuel r4 ((k, v) :: acc)
                              else if code d =? 125 then
                                Parsed (JObject (rev ((k, v) :: acc))) r4
                              else Unexpected
                          | EmptyString => Unexpected
                          end
                      | Unexpected => Unexpected
                      | Exhausted => Exhausted
                      end
                    else Unexpected
                | EmptyString => Unexpected
                end
            | Unexpected => Unexpected
            | Exhausted => Exhausted
            end
          else Unexpected
      | EmptyString => Unexpected
      end
  end.

(** The fuel given to the parser for a text: more than twice its length. *)
Definition fuel_for (s : string) : nat := 2 * String.length s + 2.

(** [JSON.parse(text)]: the value of the whole text, or a [SyntaxError]. *)
Definition JSON_parse (text : string) : outcome json :=
  match parse_value (fuel_for text) text with
  | Parsed v r =>
      match skip_ws r with
      | EmptyString => Ok v
      | String _ _ => Throw (SyntaxError "Unexpected token in JSON")
      end
  | Unexpected => Throw (SyntaxError "Unexpected token in JSON")
  | Exhausted => Throw (SyntaxError "Unexpected token in JSON")
  end.

(** ** The Redis [message] handler of [index.js] *)

(** The property names that the handler reads.  None of them is a member
    of a built-in prototype, so a read finds an own property or nothing. *)
Inductive field := f_event | f_to | f_data | f_reward.

Definition field_name (f : field) : string :=
  match f with
  | f_event => "event"
  | f_to => "to"
  | f_data => "data"
  | f_reward => "reward"
  end.

(** The own property [k] of an object: its last member of that name. *)
Definition own_property (k : string) (ms : list (string * json))
  : option json :=
  snd <$> List.find (fun kv => String.eqb (fst kv) k) (rev ms).

(** [v.f]: a [TypeError] on [undefined] and [null], the own property of an
    object, [undefined] on any other value. *)
Definition get_property (v : option json) (f : field)
  : outcome (option json) :=
  match v with
  | None =>
      Throw (TypeError ("Cannot read properties of undefined (reading '"
                        +:+ field_name f +:+ "')"))
  | Some JNull =>
      Throw (TypeError ("Cannot read properties of null (reading '"
                        +:+ field_name f +:+ "')"))
  | Some (JObject ms) => Ok (own_property (field_name f) ms)
  | Some _ => Ok None
  end.

(** What the handler does to its surroundings, in order: a console line, a
    call of [userService.increaseAmountWon] that is not awaited, an emission
    handed to the socket server.  The call and the emission are recorded
    with their arguments; what they do afterwards is not part of the
    handler. *)
Inductive effect :=
  | logged (text : string)
  | called_increaseAmountWon (userId reward : option json)
  | emitted (room event data : option json).

(** [v === 'CASINO_REWARD']. *)
Definition is_casino_reward (v : option json) : bool :=
  match v with
  | Some (JString s) => String.eqb s "CASINO_REWARD"
  | _ => false
  end.

Definition perform (e : effect) : run (list effect) unit :=
  fun done => (Ok tt, done ++ [e]).

(** [subClient.on('message', (channel, message) => ...)], over the effects
    performed so far. *)
Definition on_message (channel message : string) : run (list effect) unit :=
  perform (logged ("[REDIS] Incoming : " +:+ message)) ;;
  let* messageObj := eval (JSON_parse message) in
  let messageObj := Some messageObj in
  let* event := eval (get_property messageObj f_event) in
  (if is_casino_reward event then
     let* to := eval (get_property messageObj f_to) in
     let* data := eval (get_property messageObj f_data) in
     let* reward := eval (get_property data f_reward) in
     perform (called_increaseAmountWon to reward)
   else ret tt) ;;
  let* to := eval (get_property messageObj f_to) in
  let* event := eval (get_property messageObj f_event) in
  let* data := eval (get_property messageObj f_data) in
  perform (emitted to event data).

(** The decoded messages on which a property read of the handler fails:
    [null], and a [CASINO_REWARD] whose [data] is missing or [null]. *)
Definition unreadable (v : json) : bool :=
  match v with
  | JNull => true
  | JObject ms =>
      is_casino_reward (own_property "event" ms) &&
      match own_property "data" ms with
      | None | Some JNull => true
      | Some _ => false
      end
  | _ => false
  end.

(** ** Concurrent calls of [increaseAmountWon] *)

(** A call in progress.  Between its two [await]s on the database a call
    holds the document it read; other calls may run in between. *)
Inductive call :=
  | finding (userId : string) (amount : Z)
  | saving (userId : string) (new_amountWon : Z)
  | settled (r : outcome unit).

(** The next database operation of a call, up to its next [await]. *)
Definition call_step (c : call) : World -> call * World :=
  fun w =>
    match c with
    | finding userId amount =>
        match findById userId w with
        | Some u => (saving userId (amountWon u + amount), w)
        | None => (settled (Ok tt), w)
        end
    | saving userId v =>
        match save userId (set_amountWon v) w with
        | (Ok _, w') => (settled (Ok tt), w')
        | (Throw e, w') =>
            (settled (Throw e),
             with_console (console w' ++ [console_error "" e]) w')
        end
    | settled r => (c, w)
    end.

(** Runs the calls in the order of a schedule: each entry names the call
    whose next operation the database executes. *)
Fixpoint run_schedule (schedule : list nat) (calls : list call) (w : World)
  : list call * World :=
  match schedule with
  | [] => (calls, w)
  | i :: schedule' =>
      match calls !! i with
      | Some c =>
          let '(c', w') := call_step c w in
          run_schedule schedule' (<[i := c']> calls) w'
      | None => run_schedule schedule' calls w
      end
  end.

(** ** Sequential runs and sample data *)

(** The world in which the statistics service answers [total] for
    everyone. *)
Definition with_total (total : Z) (w : World) : World :=
  {| users := users w; now := now w;
     betsAmount := fun _ => Ok {| totalBets := Some total |};
     amqp := amqp w; console := console w; wallet := wallet w |}.

(** [checkTotalBetsAward] called once after each of the given totals of the
    user is reached. *)
Definition check_after_totals (table : Z -> option Z) (userId : string)
    (totals : list Z) (w : World) : World :=
  fold_left
    (fun w total => snd (checkTotalBetsAward table userId (with_total total w)))
    totals w.

(** The [user_award] message of a milestone. *)
Definition milestone_message (table : Z -> option Z) (userId : string)
    (total : Z) : AmqpMessage :=
  {| exchange := "universal_events"; routingKey := "event.user_award";
     content :=
       EVENT_USER_AWARD userId
         (Some {| award_type := "TOTAL_BETS_ABOVE_VALUE";
                  award_total := Some total; award := table total |})
         false |}.

(** [increaseAmountWon] awaited once per amount, one call after another. *)
Definition increase_in_turn (userId : string) (amounts : list Z) (w : World)
  : World :=
  fold_left (fun w amount => snd (increaseAmountWon userId amount w))
    amounts w.

(** [checkUserRegistrationBonus] awaited once per user, one call after
    another. *)
Definition register_in_turn (b : BonusType) (userIds : list string)
    (w : World) : World :=
  fold_left (fun w userId => snd (checkUserRegistrationBonus b userId w))
    userIds w.

Definition sample_user (id : string) (won registered : Z) : User :=
  {| _id := id; username := Some id; amountWon := won; date := registered;
     status := "active"; tosConsentedAt := None; currency := "WFAIR";
     bonus := None |}.

Definition sample_world (us : list User) (time : Z) : World :=
  {| users := us; now := time;
     betsAmount := fun _ => Ok {| totalBets := None |};
     amqp := []; console := []; wallet := [] |}.

(** Four users with 100, 100, 50 and 10 won; A registered before B. *)
Definition leaderboard : World :=
  sample_world
    [sample_user "A" 100 1; sample_user "B" 100 2; sample_user "C" 50 3;
     sample_user "D" 10 4] 10.

(** Three users with 100, 50 and 50 won; Z registered before Y. *)
Definition tied_board : World :=
  sample_world
    [sample_user "X" 100 1; sample_user "Y" 50 3; sample_user "Z" 50 2] 10.

Definition sample_launch : BonusType :=
  {| bonus_type := "LAUNCH_1k_500"; bonus_amount := 500;
     bonus_endDate := Some 2000 |}.

Definition sample_id (k : nat) : string := "user" +:+ pretty k.

(** [n] users, the first [granted] of whom hold the launch bonus. *)
Definition launch_users (n granted : nat) : list User :=
  map (fun k =>
         let u := sample_user (sample_id k) 0 (Z.of_nat k) in
         if (k <? granted)%nat then set_bonus "LAUNCH_1k_500" u else u)
      (seq 0 n).

(** A sample reward table. *)
Definition sample_rewards (total : Z) : option Z :=
  if includes milestones total then Some (10 * total) else None.

(** A message text written with ['] for the double quote. *)
Definition quoted (s : string) : string :=
  string_of_list_ascii
    (map (fun c => if code c =? 39 then char 34 else c)
       (list_ascii_of_string s)).

(** * The rest of the service *)

(** ** Referral rewards *)

(** Truthiness of a value that is a string, [null] or [undefined]. *)
Definition truthy_string (v : option string) : bool :=
  match v with
  | Some s => negb (String.eqb s "")
  | None => false
  end.

(** [rewardUserAction(ref, amount)]. *)
Definition rewardUserAction (ref : option string) (amount : Z) : M unit :=
  if truthy_string ref then mintUser (default "" ref) amount else ret tt.

(** ** Overlapping calls *)

(** All the ways of merging two sequences of steps, each kept in its own
    order. *)
Fixpoint interleavings (l1 : list nat) : list nat -> list (list nat) :=
  fix merge_with (l2 : list nat) : list (list nat) :=
    match l1, l2 with
    | [], _ => [l2]
    | _, [] => [l1]
    | x :: l1', y :: l2' =>
        map (cons x) (interleavings l1' l2) ++ map (cons y) (merge_with l2')
    end.

(** ** Reading a decoded message *)

(** [v.f] on a value that is neither [null] nor [undefined]. *)
Definition member (v : json) (f : field) : option json :=
  match v with
  | JObject ms => own_property (field_name f) ms
  | _ => None
  end.

(** ** [String.prototype.replace] with a string pattern *)

(** Where a pattern first occurs in a text: the text before it and the
    text after it. *)
Fixpoint split_first (pattern s : string) : option (string * string) :=
  match strip_prefix pattern s with
  | Some after => Some (EmptyString, after)
  | None =>
      match s with
      | String c s' =>
          match split_first pattern s' with
          | Some (before, after) => Some (String c before, after)
          | None => None
          end
      | EmptyString => None
      end
  end.

(** The text put in place of a match: the replacement with its [$]
    patterns expanded.  There is no capture, so [$1], [$<] and a [$] before
    any other character stay as they are. *)
Fixpoint substitution (matched before after replacement : string) : string :=
  match replacement with
  | EmptyString => EmptyString
  | String d rest =>
      if code d =? 36 then
        match rest with
        | String c rest' =>
            if code c =? 36 then
              String d (substitution matched before after rest')
            else if code c =? 38 then
              matched +:+ substitution matched before after rest'
            else if code c =? 96 then
              before +:+ substitution matched before after rest'
            else if code c =? 39 then
              after +:+ substitution matched before after rest'
            else String d (substitution matched before after rest)
        | EmptyString => String d EmptyString
        end
      else String d (substitution matched before after rest)
  end.

(** [s.replace(pattern, replacement)]: the first occurrence is replaced;
    a text without the pattern is returned as it is. *)
Definition replace (pattern replacement s : string) : string :=
  match split_first pattern s with
  | Some (before, after) =>
      before +:+ substitution pattern before after replacement +:+ after
  | None => s
  end.

(** Whether a character occurs in a text. *)
Fixpoint occurs (c : ascii) (s : string) : bool :=
  match s with
  | EmptyString => false
  | String d s' => Ascii.eqb c d || occurs c s'
  end.

(** ** The database URL of [index.js] *)

(** [s === t] on a value that is a string or [undefined]. *)
Definition is_string (v : option string) (t : string) : bool :=
  match v with
  | Some s => String.eqb s t
  | None => false
  end.

Definition tls_parameters (certificate : string) : string :=
  "&replicaSet=wallfair&tls=true&tlsCAFile=/usr/src/app/ssl/" +:+ certificate.

(** [mongoURL] after the two environment tests, from
    [process.env.DB_CONNECTION] and [process.env.ENVIRONMENT]. *)
Definition mongoURL (DB_CONNECTION ENVIRONMENT : option string)
  : outcome (option string) :=
  let mongoURL := DB_CONNECTION in
  let for_cluster (certificate : string) :=
    match mongoURL with
    | Some url =>
        let url :=
          replace "admin?authSource=admin" "wallfair?authSource=admin" url in
        Ok (Some (url +:+ tls_parameters certificate))
    | None =>
        Throw (TypeError
                 "Cannot read properties of undefined (reading 'replace')")
    end in
  if is_string ENVIRONMENT "STAGING" then for_cluster "staging.crt"
  else if is_string ENVIRONMENT "PRODUCTIVE" then for_cluster "productive.crt"
  else Ok mongoURL.

(** ** The mail service: [generate] *)

(** [s.substring(start)]. *)
Fixpoint substring_from (start : nat) (s : string) : string :=
  match start, s with
  | O, _ => s
  | S start', String _ s' => substring_from start' s'
  | S _, EmptyString => EmptyString
  end.

(** What a call of [generate] ends with: the code, or the
    [ReferenceError] of the name [generate], which the module does not
    bind. *)
Inductive generated :=
  | generated_code (digits : string)
  | generate_is_not_defined.

(** [generate(n)] for a number [n] of digits, a non-negative integer.
    [floor_random m] is the value of [Math.floor(Math.random() * m)] for the
    random number drawn by the call, an integer from 0 to [m - 1]. *)
Definition generate (floor_random : Z -> Z) (n : nat) : generated :=
  let add := 1 in
  let max := 12 - add in
  if max <? Z.of_nat n then generate_is_not_defined
  else
    let max := 10 ^ (Z.of_nat n + add) in
    let min := max / 10 in
    let number := floor_random (max - min + 1) + min in
    generated_code (substring_from (Z.to_nat add) (decimal number)).

(** Whether a text is made of decimal digits only. *)
Definition all_digits (s : string) : bool :=
  forallb is_digit (list_ascii_of_string s).

(** ** Strict order of the ranking *)

(** [v] has won more than [u], or as much and registered later: the sort of
    [find_ranked] can only place [v] above [u]. *)
Definition ahead_of (u v : User) : Prop :=
  amountWon u < amountWon v \/ (amountWon v = amountWon u /\ date u < date v).

#[global] Instance ahead_of_dec u v : Decision (ahead_of u v).
Proof. unfold ahead_of. apply _. Defined.

(** The users with a username that are ahead of [u]. *)
Definition ranked_ahead (u : User) (w : World) : list User :=
  filter (ahead_of u) (filter (fun v => is_Some (username v)) (users w)).

(** * Properties *)

(** Unfolds the operations of the monad. *)
Ltac unfold_run :=
  unfold bind, catch, ret, throw, eval, get_world, modify, User_findById.

(** ** Winnings *)

(** C10: [getTotalWin b] is [max (b - 5000) 0] in exact integer arithmetic,
    and so is never negative. *)
Theorem getTotalWin_max (b : Z) :
  getTotalWin b = Z.max (b - 5000) 0 /\ 0 <= getTotalWin b.
Proof.
  unfold getTotalWin, INITIAL_LIQUIDITY.
  destruct (Z.ltb_spec (b - 5000) 0); lia.
Qed.

(** ** The collection *)

Lemma has_id_true id u : has_id id u = true <-> _id u = id.
Proof. unfold has_id. apply String.eqb_eq. Qed.

Lemma has_id_false id u : has_id id u = false <-> _id u <> id.
Proof. unfold has_id. apply String.eqb_neq. Qed.

Lemma find_update_by_id id f us :
  (forall u, _id (f u) = _id u) ->
  List.find (has_id id) (update_by_id id f us)
  = f <$> List.find (has_id id) us.
Proof.
  intros Hid. induction us as [|u us IH]; simpl; [done|].
  destruct (has_id id u) eqn:Hu; simpl.
  - assert (has_id id (f u) = true) as ->; [|done].
    apply has_id_true. rewrite Hid. by apply has_id_true.
  - by rewrite Hu.
Qed.

(** ** Awards *)

(** C7: with a nonzero [awardData.award], [mintUser] fails with
    [Not supported]; [createUserAwardEvent] catches and logs that error,
    still publishes the [user_award] message, and returns normally. *)
Theorem createUserAwardEvent_survives_mint (userId : string)
    (awardData : AwardData) (a : Z) (broadcast : option bool) (w : World) :
  award awardData = Some a ->
  a <> 0 ->
  mintUser userId a w = (Throw (Error "Not supported"), w) /\
  createUserAwardEvent userId (Some awardData) broadcast w =
    (Ok tt,
     with_amqp
       (amqp w ++
        [{| exchange := "universal_events"; routingKey := "event.user_award";
            content := EVENT_USER_AWARD userId (Some awardData)
                         (default false broadcast) |}])
       (with_console
          (console w ++
           [console_error "award mintUser" (Error "Not supported")]) w)).
Proof.
  intros Ha Hnz. split; [done|].
  unfold createUserAwardEvent, mintUser. unfold_run. simpl.
  rewrite Ha. simpl.
  destruct (Z.eqb_spec a 0) as [->|_]; [done|]. simpl. done.
Qed.

Lemma createUserAwardEvent_survives_mint_witness :
  createUserAwardEvent "A" (Some {| award_type := "TOTAL_BETS_ABOVE_VALUE";
                                    award_total := Some 5;
                                    award := Some 100 |}) None leaderboard
  = (Ok tt,
     with_amqp
       [{| exchange := "universal_events"; routingKey := "event.user_award";
           content :=
             EVENT_USER_AWARD "A"
               (Some {| award_type := "TOTAL_BETS_ABOVE_VALUE";
                        award_total := Some 5; award := Some 100 |})
               false |}]
       (with_console
          [console_error "award mintUser" (Error "Not supported")]
          leaderboard)).
Proof.
  apply (createUserAwardEvent_survives_mint "A" _ 100 None leaderboard).
  - reflexivity.
  - lia.
Defined.

Lemma or_zero_Some (t : Z) : or_zero (Some t) = t.
Proof.
  unfold or_zero, truthy. simpl. destruct (Z.eqb_spec t 0); simpl; lia.
Qed.

Lemma includes_elem_of (l : list Z) (x : Z) : includes l x = true <-> x ∈ l.
Proof.
  unfold includes. rewrite existsb_exists. split.
  - intros (y & Hy & ->%Z.eqb_eq). by apply list_elem_of_In.
  - intros H. exists x. split; [by apply list_elem_of_In|lia].
Qed.

(** The messages after one call, from the total that the service reports. *)
Lemma checkTotalBetsAward_amqp (table : Z -> option Z) (userId : string)
    (t : Z) (v : World) :
  betsAmount v userId = Ok {| totalBets := Some t |} ->
  amqp (snd (checkTotalBetsAward table userId v))
  = if includes milestones t
    then amqp v ++ [milestone_message table userId t] else amqp v.
Proof.
  intros Hv. unfold checkTotalBetsAward, getUserBetsAmount. unfold_run.
  cbn -[includes]. rewrite Hv. cbn -[includes]. rewrite or_zero_Some.
  destruct (includes milestones t); [|done].
  unfold createUserAwardEvent, mintUser. unfold_run. simpl.
  destruct (truthy (table t)); done.
Qed.

Lemma checkTotalBetsAward_idle (table : Z -> option Z) (userId : string)
    (t : Z) (v : World) :
  betsAmount v userId = Ok {| totalBets := Some t |} ->
  includes milestones t = false ->
  snd (checkTotalBetsAward table userId v) = v.
Proof.
  intros Hv Hf. unfold checkTotalBetsAward, getUserBetsAmount. unfold_run.
  cbn -[includes]. rewrite Hv. cbn -[includes]. rewrite or_zero_Some.
  by rewrite Hf.
Qed.

Lemma check_after_totals_amqp (table : Z -> option Z) (userId : string)
    (totals : list Z) (w : World) :
  amqp (check_after_totals table userId totals w)
  = amqp w ++ map (milestone_message table userId)
                  (List.filter (includes milestones) totals).
Proof.
  unfold check_after_totals. revert w.
  induction totals as [|t totals IH]; intros w.
  - simpl. by rewrite app_nil_r.
  - cbn [fold_left List.filter]. rewrite IH.
    rewrite (checkTotalBetsAward_amqp table userId t (with_total t w) eq_refl).
    destruct (includes milestones t); [|done].
    cbn [map amqp with_total]. by rewrite <-app_assoc.
Qed.

(** C4: when the statistics service reports [total] for the user,
    [checkTotalBetsAward] publishes an award exactly when [total] is one of
    the milestones 5, 20, 50, 100, 150; the award it publishes carries the
    entry of the reward table for [total]; and a call after each of the
    totals 4, 5, ..., 20 publishes two awards, for 5 and for 20. *)
Theorem checkTotalBetsAward_milestones (table : Z -> option Z)
    (userId : string) (total : Z) (w : World) :
  betsAmount w userId = Ok {| totalBets := Some total |} ->
  let w' := snd (checkTotalBetsAward table userId w) in
  (amqp w' <> amqp w <-> total ∈ milestones) /\
  (total ∈ milestones ->
   amqp w' = amqp w ++ [milestone_message table userId total]) /\
  (total ∉ milestones -> w' = w) /\
  amqp (check_after_totals table userId (seqZ 4 17) w)
  = amqp w ++ [milestone_message table userId 5;
               milestone_message table userId 20].
Proof.
  intros Hbets. pose proof (includes_elem_of milestones total) as Hin.
  pose proof (checkTotalBetsAward_amqp table userId total w Hbets) as Hrun.
  pose proof (checkTotalBetsAward_idle table userId total w Hbets) as Hsame.
  cbv zeta. repeat split.
  - intros Hne. apply Hin, not_false_iff_true. intros E. apply Hne.
    by rewrite Hsame.
  - intros Hm. rewrite Hrun. apply Hin in Hm as ->. intros Heq.
    apply (f_equal length) in Heq. rewrite length_app in Heq. simpl in Heq.
    lia.
  - intros Hm. rewrite Hrun. by apply Hin in Hm as ->.
  - intros Hm. apply Hsame, not_true_iff_false. intros E. by apply Hm, Hin.
  - by rewrite check_after_totals_amqp.
Qed.

Lemma checkTotalBetsAward_milestones_witness :
  amqp (snd (checkTotalBetsAward sample_rewards "A"
               (with_total 20 leaderboard)))
  = [milestone_message sample_rewards "A" 20] /\
  snd (checkTotalBetsAward sample_rewards "A" (with_total 6 leaderboard))
  = with_total 6 leaderboard.
Proof.
  destruct (checkTotalBetsAward_milestones sample_rewards "A" 20
              (with_total 20 leaderboard) eq_refl) as (_ & H20 & _ & _).
  destruct (checkTotalBetsAward_milestones sample_rewards "A" 6
              (with_total 6 leaderboard) eq_refl) as (_ & _ & H6 & _).
  split.
  - apply H20. apply includes_elem_of. reflexivity.
  - apply H6. intros H%includes_elem_of. discriminate H.
Defined.

(** ** Users that do not exist *)

(** C6, as stated, fails: [increaseAmountWon] on an id that names no user
    returns normally. *)
Lemma increaseAmountWon_missing_user_counterexample :
  findById "ghost" leaderboard = None /\
  increaseAmountWon "ghost" 10 leaderboard = (Ok tt, leaderboard) /\
  ~ (forall (userId : string) (amount : Z) (w : World),
       findById userId w = None ->
       throws (fst (increaseAmountWon userId amount w))).
Proof.
  split; [reflexivity|]. split; [reflexivity|].
  intros H. exact (H "ghost" 10 leaderboard eq_refl).
Qed.

(** C6, amended: on an id that names no user, [updateStatus] throws
    [User does not exist] and [updateUserConsent] throws [NOT_FOUND], both
    leaving the world as it was, while [increaseAmountWon] is guarded by
    [if (user)]: it returns normally and changes nothing. *)
Theorem missing_user_outcomes (userId : string) (w : World) :
  findById userId w = None ->
  (forall status,
     updateStatus userId status w = (Throw (Error "User does not exist"), w)) /\
  updateUserConsent userId w = (Throw (Error "NOT_FOUND"), w) /\
  (forall amount, increaseAmountWon userId amount w = (Ok tt, w)).
Proof.
  intros Hnone. repeat split; intros;
    unfold updateStatus, updateUserConsent, increaseAmountWon,
      amountWon_callback; unfold_run; rewrite Hnone; reflexivity.
Qed.

Lemma missing_user_outcomes_witness :
  updateStatus "ghost" "banned" leaderboard
  = (Throw (Error "User does not exist"), leaderboard) /\
  updateUserConsent "ghost" leaderboard
  = (Throw (Error "NOT_FOUND"), leaderboard) /\
  increaseAmountWon "ghost" 10 leaderboard = (Ok tt, leaderboard).
Proof.
  destruct (missing_user_outcomes "ghost" leaderboard) as (Hs & Hc & Hi).
  - reflexivity.
  - split; [apply Hs|]. split; [apply Hc|apply Hi].
Defined.

(** ** Preferences *)

Lemma valid_currency_spec (c : option string) :
  valid_currency c = true <-> exists s, c = Some s /\ s ∈ CURRENCIES.
Proof.
  destruct c as [s|]; unfold valid_currency.
  - rewrite existsb_exists. split.
    + intros (x & Hx & ->%String.eqb_eq). exists x. split; [done|].
      by apply list_elem_of_In.
    + intros (x & [= ->] & Hx). exists x. split; [by apply list_elem_of_In|].
      apply String.eqb_refl.
  - split; [done|]. by intros (x & ? & _).
Qed.

(** C9: with preferences given, [updateUserPreferences] throws the
    invalid-currency error exactly when [preferences.currency] is not one of
    WFAIR, EUR, USD; when it does, nothing is changed, the stored currency
    included; and for a user that exists a valid currency is stored on the
    user. *)
Theorem updateUserPreferences_currency (userId : string) (p : Preferences)
    (w : World) :
  let r := updateUserPreferences userId (Some p) w in
  (fst r = Throw (invalid_currency (pref_currency p)) <->
   ~ exists c, pref_currency p = Some c /\ c ∈ CURRENCIES) /\
  (fst r = Throw (invalid_currency (pref_currency p)) -> snd r = w) /\
  (forall u c,
     findById userId w = Some u ->
     pref_currency p = Some c ->
     c ∈ CURRENCIES ->
     fst r = Ok (set_currency c u) /\
     currency <$> findById userId (snd r) = Some c).
Proof.
  cbv zeta.
  assert (Hrun : updateUserPreferences userId (Some p) w =
    if valid_currency (pref_currency p) then
      match findById userId w, pref_currency p with
      | Some u, Some c =>
          (Ok (set_currency c u),
           with_users (update_by_id userId (set_currency c) (users w))
             (with_amqp
                (amqp w ++
                 [{| exchange := "universal_events";
                     routingKey := "event.user_set_currency";
                     content := EVENT_USER_SET_CURRENCY userId c |}]) w))
      | _, _ => (Throw null_preferences, w)
      end
    else (Throw (invalid_currency (pref_currency p)), w)).
  { unfold updateUserPreferences. unfold_run.
    destruct (valid_currency (pref_currency p)) eqn:E; [|done]. simpl.
    apply valid_currency_spec in E as (c & -> & _).
    destruct (findById userId w) as [u|] eqn:Hu; [|done].
    unfold amqp_send, save. unfold_run. simpl.
    unfold findById in *. simpl. by rewrite Hu. }
  rewrite Hrun. split; [split|split].
  - intros Hthrow Hex%valid_currency_spec. rewrite Hex in Hthrow.
    destruct (findById userId w), (pref_currency p); discriminate.
  - intros Hnot. destruct (valid_currency (pref_currency p)) eqn:E; [|done].
    by apply valid_currency_spec in E.
  - destruct (valid_currency (pref_currency p)); [|done].
    destruct (findById userId w), (pref_currency p); discriminate.
  - intros u c Hu Hc Hin.
    assert (valid_currency (pref_currency p) = true) as ->
      by (apply valid_currency_spec; eauto).
    rewrite Hu, Hc. split; [done|]. unfold findById in *. simpl.
    rewrite find_update_by_id by done. by rewrite Hu.
Qed.

Lemma updateUserPreferences_currency_witness :
  fst (updateUserPreferences "A" (Some {| pref_currency := Some "EUR" |})
         leaderboard)
  = Ok (set_currency "EUR" (sample_user "A" 100 1)) /\
  currency <$>
    findById "A"
      (snd (updateUserPreferences "A" (Some {| pref_currency := Some "EUR" |})
              leaderboard))
  = Some "EUR".
Proof.
  destruct (updateUserPreferences_currency "A"
              {| pref_currency := Some "EUR" |} leaderboard) as (_ & _ & H).
  apply (H (sample_user "A" 100 1) "EUR").
  - reflexivity.
  - reflexivity.
  - apply (bool_decide_unpack _). reflexivity.
Defined.

(** ** Registration bonus *)

(** What the query of the bonus holders returns has as many documents as
    there are allocations of the bonus among the users. *)
Lemma find_bonus_allocations (b : BonusType) (w : World) :
  length (find_bonus b w) = existing_allocations (bonus_type b) (users w).
Proof.
  unfold find_bonus. induction (users w) as [|u us IH]; [done|].
  rewrite filter_cons. simpl.
  destruct (decide (bonus u = Some (bonus_type b))); simpl; by rewrite IH.
Qed.

(** C8: for a launch bonus whose deadline is [d], [checkUserRegistrationBonus]
    does nothing once the clock is past [d]; up to the deadline it counts the
    existing allocations, the users on whom the bonus is recorded, and when
    the count is at most 1000 it grants the bonus amount to the user; when the
    count is above 1000 it does nothing. *)
Theorem checkUserRegistrationBonus_rule (b : BonusType) (userId : string)
    (w : World) (d : Z) :
  bonus_endDate b = Some d ->
  let count := Z.of_nat (existing_allocations (bonus_type b) (users w)) in
  let r := checkUserRegistrationBonus b userId w in
  (d < now w -> r = (Ok tt, w)) /\
  (now w <= d -> count <= 1000 ->
   r = transferBonus b (bonus_amount b) userId w /\
   wallet (snd r) = wallet w ++ [(bonus_amount b, userId)]) /\
  (now w <= d -> 1000 < count -> r = (Ok tt, w)).
Proof.
  intros Hd. cbv zeta. rewrite <-find_bonus_allocations.
  unfold checkUserRegistrationBonus. unfold_run.
  rewrite Hd.
  unfold date_lt. repeat split.
  - intros Hpast. by destruct (Z.ltb_spec d (now w)); [|lia].
  - destruct (Z.ltb_spec d (now w)); [lia|].
    by destruct (Z.leb_spec (Z.of_nat (length (find_bonus b w))) 1000); [|lia].
  - destruct (Z.ltb_spec d (now w)); [lia|].
    by destruct (Z.leb_spec (Z.of_nat (length (find_bonus b w))) 1000); [|lia].
  - intros Hnow Hfull. destruct (Z.ltb_spec d (now w)); [lia|].
    by destruct (Z.leb_spec (Z.of_nat (length (find_bonus b w))) 1000); [lia|].
Qed.

Lemma checkUserRegistrationBonus_rule_witness :
  let past := sample_world (launch_users 3 2) 2001 in
  let open := sample_world (launch_users 3 2) 10 in
  let at_capacity := sample_world (launch_users 1001 1000) 10 in
  let full := sample_world (launch_users 1002 1001) 10 in
  checkUserRegistrationBonus sample_launch "user2" past = (Ok tt, past) /\
  wallet (snd (checkUserRegistrationBonus sample_launch "user2" open))
  = [(500, "user2")] /\
  wallet (snd (checkUserRegistrationBonus sample_launch "user1000"
                 at_capacity))
  = [(500, "user1000")] /\
  checkUserRegistrationBonus sample_launch "user1001" full = (Ok tt, full).
Proof.
  cbv zeta.
  destruct (checkUserRegistrationBonus_rule sample_launch "user2"
              (sample_world (launch_users 3 2) 2001) 2000 eq_refl)
    as (Hpast & _ & _).
  destruct (checkUserRegistrationBonus_rule sample_launch "user2"
              (sample_world (launch_users 3 2) 10) 2000 eq_refl)
    as (_ & Hopen & _).
  destruct (checkUserRegistrationBonus_rule sample_launch "user1000"
              (sample_world (launch_users 1001 1000) 10) 2000 eq_refl)
    as (_ & Hcap & _).
  destruct (checkUserRegistrationBonus_rule sample_launch "user1001"
              (sample_world (launch_users 1002 1001) 10) 2000 eq_refl)
    as (_ & _ & Hfull).
  split; [|split; [|split]].
  - apply Hpast. apply Z.ltb_lt. vm_compute. reflexivity.
  - apply Hopen; apply Z.leb_le; vm_compute; reflexivity.
  - apply Hcap; apply Z.leb_le; vm_compute; reflexivity.
  - apply Hfull; [apply Z.leb_le|apply Z.ltb_lt]; vm_compute; reflexivity.
Defined.

(** At capacity the bonus is still granted: with exactly 1000 holders and
    the deadline not passed, one more transfer is made. *)
Lemma checkUserRegistrationBonus_at_capacity (b : BonusType)
    (userId : string) (w : World) :
  date_lt (bonus_endDate b) (Some (now w)) = false ->
  length (find_bonus b w) = 1000%nat ->
  wallet (snd (checkUserRegistrationBonus b userId w))
  = wallet w ++ [(bonus_amount b, userId)].
Proof.
  intros Hd Hn. unfold checkUserRegistrationBonus. unfold_run.
  rewrite Hd, Hn. reflexivity.
Qed.

Lemma checkUserRegistrationBonus_grant (b : BonusType) (userId : string)
    (w : World) :
  date_lt (bonus_endDate b) (Some (now w)) = false ->
  (length (find_bonus b w) <= 1000)%nat ->
  checkUserRegistrationBonus b userId w
  = transferBonus b (bonus_amount b) userId w.
Proof.
  intros Hd Hn. unfold checkUserRegistrationBonus. unfold_run.
  rewrite Hd.
  by destruct (Z.leb_spec (Z.of_nat (length (find_bonus b w))) 1000); [|lia].
Qed.

(** A transfer adds at most one holder. *)
Lemma holders_after_transfer (b : BonusType) (amount : Z) (userId : string)
    (w : World) :
  (length (find_bonus b (snd (transferBonus b amount userId w)))
   <= S (length (find_bonus b w)))%nat.
Proof.
  unfold find_bonus, transferBonus. unfold_run. simpl.
  induction (users w) as [|u us IH]; simpl; [lia|].
  destruct (has_id userId u); rewrite !filter_cons;
    repeat case_decide; simpl; lia.
Qed.

(** While the holders and the callers together are at most 1001, every call
    made in turn before the deadline is granted. *)
Lemma register_in_turn_grants_all (b : BonusType) (userIds : list string)
    (w : World) :
  date_lt (bonus_endDate b) (Some (now w)) = false ->
  (length (find_bonus b w) + length userIds <= 1001)%nat ->
  wallet (register_in_turn b userIds w)
  = wallet w ++ map (fun userId => (bonus_amount b, userId)) userIds.
Proof.
  unfold register_in_turn. revert w.
  induction userIds as [|userId userIds IH]; intros w Hd Hn; simpl.
  - by rewrite app_nil_r.
  - simpl in Hn. rewrite checkUserRegistrationBonus_grant by (done || lia).
    rewrite IH.
    + simpl. by rewrite <-app_assoc.
    + done.
    + pose proof (holders_after_transfer b (bonus_amount b) userId w). lia.
Qed.

(** C2: the cap of 1000 is exceeded.  In a collection where 1000 users
    hold the launch bonus, a call for one more user before the deadline
    transfers the bonus again, which makes 1001 holders; and 1001 calls made
    one after another, starting with no holder, are all granted. *)
Theorem registration_bonus_exceeds_capacity :
  let w := sample_world (launch_users 1001 1000) 1000 in
  let w' := snd (checkUserRegistrationBonus sample_launch (sample_id 1000) w) in
  let v := sample_world (launch_users 1001 0) 1000 in
  let v' := register_in_turn sample_launch (map sample_id (seq 0 1001)) v in
  length (find_bonus sample_launch w) = 1000%nat /\
  wallet w' = [(500, sample_id 1000)] /\
  length (find_bonus sample_launch w') = 1001%nat /\
  length (find_bonus sample_launch v) = 0%nat /\
  length (wallet v') = 1001%nat.
Proof.
  cbv zeta. split; [|split; [|split; [|split]]].
  - vm_compute. reflexivity.
  - vm_compute. reflexivity.
  - vm_compute. reflexivity.
  - vm_compute. reflexivity.
  - rewrite register_in_turn_grants_all.
    + rewrite length_app, !length_map, length_seq. reflexivity.
    + reflexivity.
    + assert (length (find_bonus sample_launch
                (sample_world (launch_users 1001 0) 1000)) = 0%nat) as ->
        by (vm_compute; reflexivity).
      rewrite length_map, length_seq. lia.
Qed.

(** ** The amount won *)

Lemma increaseAmountWon_adds (userId : string) (amount : Z) (w : World)
    (u : User) :
  findById userId w = Some u ->
  increaseAmountWon userId amount w
  = (Ok tt,
     with_users
       (update_by_id userId (set_amountWon (amountWon u + amount)) (users w))
       w).
Proof.
  intros Hu. unfold increaseAmountWon, amountWon_callback, save. unfold_run.
  by rewrite Hu, Hu.
Qed.

(** Calls awaited one after another add up. *)
Lemma increase_in_turn_sum (userId : string) (amounts : list Z) (w : World)
    (u : User) :
  findById userId w = Some u ->
  amountWon <$> findById userId (increase_in_turn userId amounts w)
  = Some (amountWon u + foldr Z.add 0 amounts).
Proof.
  unfold increase_in_turn. revert w u.
  induction amounts as [|a amounts IH]; intros w u Hu; simpl.
  - rewrite Hu. simpl. f_equal. lia.
  - rewrite (increaseAmountWon_adds _ _ _ _ Hu). simpl.
    rewrite (IH _ (set_amountWon (amountWon u + a) u)).
    + f_equal. simpl. lia.
    + unfold findById in *. simpl. rewrite find_update_by_id by done.
      by rewrite Hu.
Qed.

(** The two database operations of a call, run with nothing in between,
    are the call itself. *)
Lemma call_steps_increaseAmountWon (userId : string) (amount : Z)
    (w : World) :
  let '(c1, w1) := call_step (finding userId amount) w in
  let '(c2, w2) := call_step c1 w1 in
  (c2, w2) = (settled (fst (increaseAmountWon userId amount w)),
              snd (increaseAmountWon userId amount w)).
Proof.
  unfold increaseAmountWon, amountWon_callback, call_step. unfold_run.
  destruct (findById userId w) as [u|] eqn:Hu; [|done].
  unfold save. by rewrite Hu.
Qed.

(** An error of the callback is logged and thrown again to the caller; the
    callback is run once. *)
Lemma increaseAmountWon_surfaces (userId : string) (amount : Z) (w : World) :
  fst (increaseAmountWon userId amount w)
  = fst (amountWon_callback userId amount w) /\
  forall e w',
    amountWon_callback userId amount w = (Throw e, w') ->
    increaseAmountWon userId amount w
    = (Throw e, with_console (console w' ++ [console_error "" e]) w').
Proof.
  unfold increaseAmountWon, catch.
  destruct (amountWon_callback userId amount w) as [[[]|e] w']; [done|].
  split; [done|]. by intros ? ? [= <- <-].
Qed.

Lemma findById_after_save (userId : string) (v : Z) (w : World) (u : User) :
  findById userId w = Some u ->
  findById userId
    (with_users (update_by_id userId (set_amountWon v) (users w)) w)
  = Some (set_amountWon v u).
Proof.
  intros Hu. unfold findById in *. simpl.
  rewrite find_update_by_id by done. by rewrite Hu.
Qed.

Lemma call_step_finding (userId : string) (d : Z) (w : World) (u : User) :
  findById userId w = Some u ->
  call_step (finding userId d) w = (saving userId (amountWon u + d), w).
Proof. intros Hu. simpl. by rewrite Hu. Qed.

Lemma call_step_saving (userId : string) (v : Z) (w : World) (u : User) :
  findById userId w = Some u ->
  call_step (saving userId v) w
  = (settled (Ok tt),
     with_users (update_by_id userId (set_amountWon v) (users w)) w).
Proof. intros Hu. simpl. unfold save. by rewrite Hu. Qed.

(** Two calls on one user that both read before either saves: the amount
    of the first is lost, whatever the amounts. *)
Lemma read_read_save_save (userId : string) (d1 d2 : Z) (w : World)
    (u : User) :
  findById userId w = Some u ->
  let r := run_schedule [0; 1; 0; 1]%nat
             [finding userId d1; finding userId d2] w in
  fst r = [settled (Ok tt); settled (Ok tt)] /\
  amountWon <$> findById userId (snd r) = Some (amountWon u + d2).
Proof.
  intros Hu. cbv zeta. unfold run_schedule. cbn -[call_step].
  rewrite (call_step_finding _ _ _ _ Hu). cbn -[call_step].
  rewrite (call_step_finding _ _ _ _ Hu). cbn -[call_step].
  rewrite (call_step_saving _ _ _ _ Hu). cbn -[call_step].
  pose proof (findById_after_save userId (amountWon u + d1) w u Hu) as Hu1.
  rewrite (call_step_saving _ _ _ _ Hu1). cbn -[call_step].
  split; [done|].
  unfold findById in *. simpl in *. rewrite find_update_by_id by done.
  by rewrite Hu1.
Qed.

(** C5: an update is lost.  Two calls on user A, who has won 0, add 10 and
    5; when both read the user before either saves, both settle without an
    error and the user ends with 5, whereas the same calls awaited one after
    the other end with 15. *)
Theorem increaseAmountWon_lost_update :
  let w := sample_world [sample_user "A" 0 1] 10 in
  let calls := [finding "A" 10; finding "A" 5] in
  let r := run_schedule [0; 1; 0; 1]%nat calls w in
  fst r = [settled (Ok tt); settled (Ok tt)] /\
  amountWon <$> findById "A" (snd r) = Some 5 /\
  amountWon <$> findById "A" (increase_in_turn "A" [10; 5] w) = Some 15.
Proof. vm_compute. repeat split. Qed.

(** ** Ranking *)

#[global] Instance ranks_before_total : Total ranks_before.
Proof. intros u v. unfold ranks_before. lia. Qed.

#[global] Instance ranks_before_trans : Transitive ranks_before.
Proof. intros u v x. unfold ranks_before. lia. Qed.

Lemma scan_step_i userId st u :
  scan_i (scan_step userId st u) = scan_i st + 1.
Proof. reflexivity. Qed.

(** After an iteration [lastDiffAmount] is the amount of the user just
    visited. *)
Lemma scan_step_last userId st u :
  lastDiffAmount (scan_step userId st u) = amountWon u.
Proof.
  unfold scan_step. simpl.
  destruct (Z.eqb_spec (lastDiffAmount st) 0); simpl; [done|].
  destruct (Z.eqb_spec (lastDiffAmount st) (amountWon u)); simpl; done.
Qed.

Lemma scan_snoc userId us u st :
  scan userId (us ++ [u]) st = scan_step userId (scan userId us st) u.
Proof. unfold scan. by rewrite fold_left_app. Qed.

Lemma scan_i_length userId us st :
  scan_i (scan userId us st) = scan_i st + Z.of_nat (length us).
Proof.
  revert st. induction us as [|u us IH]; intros st; simpl; [lia|].
  unfold scan in *. rewrite IH, scan_step_i. lia.
Qed.

Lemma scan_last userId us st :
  lastDiffAmount (scan userId us st)
  = default (lastDiffAmount st) (amountWon <$> last us).
Proof.
  induction us as [|u us IH] using rev_ind; [done|].
  rewrite scan_snoc, scan_step_last, last_snoc. done.
Qed.

(** Users with another id leave [ranking] as it is. *)
Lemma scan_others userId us st :
  Forall (fun u => _id u <> userId) us ->
  ranking (scan userId us st) = ranking st.
Proof.
  intros Hus. revert st.
  induction Hus as [|u us Hu _ IH]; intros st; [done|].
  unfold scan in *. simpl. rewrite IH. unfold scan_step.
  apply has_id_false in Hu. by rewrite Hu.
Qed.

(** The scan of a list in which the user stands at position [i] and
    nowhere else. *)
Lemma scan_found userId (us : list User) (i : nat) (u : User) :
  NoDup (_id <$> us) ->
  us !! i = Some u ->
  _id u = userId ->
  ranking (scan userId us scan_init)
  = {| rank := Z.of_nat i + 1; toNextRank := gap_above us i |}.
Proof.
  intros Hnd Hi Hid.
  pose proof (take_drop_middle us i u Hi) as Hsplit.
  pose proof (lookup_lt_Some _ _ _ Hi) as Hlt.
  assert (Hlen : length (take i us) = i) by (rewrite length_take; lia).
  rewrite <-Hsplit in Hnd. rewrite fmap_app, fmap_cons in Hnd.
  apply NoDup_app in Hnd as (_ & Hpre & [Hpost _]%NoDup_cons).
  assert (Forall (fun v => _id v <> userId) (take i us)) as Hbefore.
  { apply Forall_forall. intros v Hv Heq.
    apply (Hpre (_id v)); [by apply list_elem_of_fmap_2|].
    rewrite Heq, <-Hid. left. }
  assert (Forall (fun v => _id v <> userId) (drop (S i) us)) as Hafter.
  { apply Forall_forall. intros v Hv Heq. apply Hpost.
    rewrite Hid, <-Heq. by apply list_elem_of_fmap_2. }
  rewrite <-Hsplit at 1.
  unfold scan. rewrite fold_left_app. simpl.
  fold (scan userId (take i us) scan_init).
  fold (scan userId (drop (S i) us)
          (scan_step userId (scan userId (take i us) scan_init) u)).
  rewrite scan_others by done.
  unfold scan_step. apply has_id_true in Hid. rewrite Hid. simpl.
  rewrite scan_i_length, scan_last, Hlen. simpl. f_equal.
  destruct i as [|j]; [done|]. simpl.
  destruct (Z.eqb_spec (0 + Z.pos (Pos.of_succ_nat j)) 0); [lia|].
  rewrite Hi.
  assert (last (take (S j) us) = us !! j) as ->.
  { rewrite last_lookup, Hlen. simpl. apply lookup_take_lt. lia. }
  destruct (us !! j) as [above|] eqn:Hj; [done|].
  apply lookup_ge_None in Hj. lia.
Qed.


Lemma find_ranked_NoDup (w : World) :
  NoDup (_id <$> users w) -> NoDup (_id <$> find_ranked w).
Proof.
  intros Hnd. unfold find_ranked. rewrite merge_sort_Permutation.
  eapply sublist_NoDup; [exact Hnd|]. apply fmap_sublist, sublist_filter.
Qed.




(** ** The parser never runs out of fuel *)

Local Open Scope nat_scope.

Lemma skip_ws_length s : String.length (skip_ws s) <= String.length s.
Proof.
  induction s as [|c r IH]; simpl; [lia|]. destruct (is_ws c); simpl; lia.
Qed.

Lemma skip_ws_cons s c r :
  skip_ws s = String c r -> String.length r < String.length s.
Proof.
  intros H. pose proof (skip_ws_length s) as Hl. rewrite H in Hl. simpl in Hl.
  lia.
Qed.

Lemma read_digits_length s acc n :
  String.length (snd (read_digits s acc n)) <= String.length s.
Proof.
  revert acc n. induction s as [|c r IH]; intros acc n; simpl; [lia|].
  destruct (is_digit c); simpl; [|lia].
  specialize (IH (10 * acc + (code c - 48))%Z (n + 1)%Z). lia.
Qed.

Lemma read_int_length s v r :
  read_int s = Parsed v r -> String.length r < String.length s.
Proof.
  destruct s as [|c s]; simpl; [done|].
  destruct (code c =? 48)%Z; [intros [= _ <-]; simpl; lia|].
  destruct (is_digit c) eqn:E; [|done].
  pose proof (read_digits_length s (10 * 0 + (code c - 48))%Z (0 + 1)%Z) as Hl.
  destruct (read_digits s _ _) as [[v' n'] r'] eqn:Hr. simpl in Hl.
  intros [= _ <-]. lia.
Qed.

Lemma read_frac_length i s p r :
  read_frac i s = Parsed p r -> String.length r <= String.length s.
Proof.
  destruct s as [|c s]; simpl; [intros [= _ <-]; simpl; lia|].
  destruct (code c =? 46)%Z; [|intros [= _ <-]; simpl; lia].
  pose proof (read_digits_length s i 0%Z) as Hl.
  destruct (read_digits s i 0) as [[v' n'] r'] eqn:Hr. simpl in Hl.
  destruct (n' =? 0)%Z; [done|]. intros [= _ <-]. lia.
Qed.

Lemma read_exp_length s e r :
  read_exp s = Parsed e r -> String.length r <= String.length s.
Proof.
  destruct s as [|c s]; simpl; [intros [= _ <-]; simpl; lia|].
  destruct ((code c =? 101)%Z || (code c =? 69)%Z);
    [|intros [= _ <-]; simpl; lia].
  destruct s as [|d s']; simpl; [done|].
  destruct (code d =? 45)%Z.
  { pose proof (read_digits_length s' 0%Z 0%Z) as Hl.
    destruct (read_digits s' 0 0) as [[v' n'] r'] eqn:Hr. simpl in Hl.
    destruct (n' =? 0)%Z; [done|]. intros [= _ <-]. lia. }
  destruct (code d =? 43)%Z.
  { pose proof (read_digits_length s' 0%Z 0%Z) as Hl.
    destruct (read_digits s' 0 0) as [[v' n'] r'] eqn:Hr. simpl in Hl.
    destruct (n' =? 0)%Z; [done|]. intros [= _ <-]. lia. }
  pose proof (read_digits_length (String d s') 0%Z 0%Z) as Hl.
  destruct (read_digits (String d s') 0 0) as [[v' n'] r'] eqn:Hr. simpl in Hl.
  destruct (n' =? 0)%Z; [done|]. intros [= _ <-]. lia.
Qed.

Lemma read_number_length s v r :
  read_number s = Parsed v r -> String.length r < String.length s.
Proof.
  unfold read_number.
  set (p := match s with
            | String c r => if (code c =? 45)%Z then ((-1)%Z, r) else (1%Z, s)
            | EmptyString => (1%Z, s)
            end).
  assert (Hp : String.length (snd p) <= String.length s).
  { subst p. destruct s as [|c s']; simpl; [lia|].
    destruct (code c =? 45)%Z; simpl; lia. }
  destruct p as [sign s1]. simpl in Hp.
  destruct (read_int s1) as [i s2| |] eqn:Hi; [|done..].
  apply read_int_length in Hi.
  destruct (read_frac i s2) as [[m n] s3| |] eqn:Hf; [|done..].
  apply read_frac_length in Hf.
  destruct (read_exp s3) as [e s4| |] eqn:He; [|done..].
  apply read_exp_length in He. intros [= _ <-]. lia.
Qed.

Lemma read_number_fuel s : read_number s <> Exhausted.
Proof.
  unfold read_number.
  destruct (match s with
            | String c r => if (code c =? 45)%Z then ((-1)%Z, r) else (1%Z, s)
            | EmptyString => (1%Z, s)
            end) as [sign s1].
  destruct (read_int s1) as [i s2| |] eqn:Hi; [|done|].
  - destruct (read_frac i s2) as [[m n] s3| |] eqn:Hf; [|done|].
    + destruct (read_exp s3) as [e s4| |] eqn:He; [done..|].
      unfold read_exp in He. repeat case_match; simplify_eq.
    + unfold read_frac in Hf. repeat case_match; simplify_eq.
  - unfold read_int in Hi. repeat case_match; simplify_eq.
Qed.

Lemma read_pieces_length s acc ps r :
  read_pieces s acc = Parsed ps r -> String.length r < String.length s.
Proof.
  remember (String.length s) as n eqn:Hn.
  assert (Hle : String.length s <= n) by lia. clear Hn.
  revert s acc Hle. induction n as [|n IH]; intros s acc Hle.
  - destruct s; simpl in *; [done|lia].
  - destruct s as [|c s]; simpl; [done|]. simpl in Hle.
    repeat case_match; simplify_eq; try done;
      try (intros [= _ <-]; simpl; lia);
      intros Hrec%IH; simpl in *; lia.
Qed.

Lemma read_pieces_fuel s acc : read_pieces s acc <> Exhausted.
Proof.
  remember (String.length s) as n eqn:Hn.
  assert (Hle : String.length s <= n) by lia. clear Hn.
  revert s acc Hle. induction n as [|n IH]; intros s acc Hle.
  - destruct s; simpl in *; [done|lia].
  - destruct s as [|c s]; simpl; [done|]. simpl in Hle.
    repeat case_match; simplify_eq; try done; apply IH; simpl in *; lia.
Qed.

Lemma read_string_length s str r :
  read_string s = Parsed str r -> String.length r < String.length s.
Proof.
  unfold read_string. destruct (read_pieces s []) eqn:E; [|done..].
  intros [= _ <-]. by apply read_pieces_length in E.
Qed.

Lemma read_string_fuel s : read_string s <> Exhausted.
Proof.
  unfold read_string. pose proof (read_pieces_fuel s []).
  by destruct (read_pieces s []).
Qed.

Lemma strip_prefix_length p s r :
  strip_prefix p s = Some r ->
  String.length s = String.length p + String.length r.
Proof.
  revert s. induction p as [|a p IH]; intros s; simpl.
  - by intros [= ->].
  - destruct s as [|b s]; [done|]. destruct (Ascii.eqb a b); [|done].
    intros H%IH. simpl. lia.
Qed.

Lemma read_literal_length s v r :
  read_literal s = Parsed v r -> String.length r < String.length s.
Proof.
  unfold read_literal. repeat case_match; try done; intros [= _ <-];
    match goal with H : strip_prefix _ _ = Some _ |- _ =>
      apply strip_prefix_length in H; simpl in H; lia end.
Qed.

Lemma read_literal_fuel s : read_literal s <> Exhausted.
Proof. unfold read_literal. by repeat case_match. Qed.

(** Every parsing function consumes something. *)
Lemma parse_shorter fuel :
  (forall s v r,
     parse_value fuel s = Parsed v r -> String.length r < String.length s) /\
  (forall s acc v r,
     parse_elements fuel s acc = Parsed v r ->
     String.length r < String.length s) /\
  (forall s acc v r,
     parse_members fuel s acc = Parsed v r ->
     String.length r < String.length s).
Proof.
  induction fuel as [|fuel (IHv & IHe & IHm)]; [done|].
  split; [|split].
  - intros s v r. simpl.
    destruct (skip_ws s) as [|c s1] eqn:Hs; [done|]. apply skip_ws_cons in Hs.
    destruct (code c =? 123)%Z.
    { destruct (skip_ws s1) as [|c' s2] eqn:Hs1; [done|].
      apply skip_ws_cons in Hs1.
      destruct (code c' =? 125)%Z; [intros [= _ <-]; lia|].
      intros H%IHm. lia. }
    destruct (code c =? 91)%Z.
    { destruct (skip_ws s1) as [|c' s2] eqn:Hs1; [done|].
      apply skip_ws_cons in Hs1.
      destruct (code c' =? 93)%Z; [intros [= _ <-]; lia|].
      intros H%IHe. lia. }
    destruct (code c =? 34)%Z.
    { destruct (read_string s1) as [str s2| |] eqn:Hr; [|done..].
      apply read_string_length in Hr. intros [= _ <-]. lia. }
    destruct ((code c =? 45)%Z || is_digit c).
    { intros H%read_number_length. simpl in H. lia. }
    intros H%read_literal_length. simpl in H. lia.
  - intros s acc v r. simpl.
    destruct (parse_value fuel s) as [v1 r1| |] eqn:Hv; [|done..].
    apply IHv in Hv.
    destruct (skip_ws r1) as [|c r2] eqn:Hs; [done|]. apply skip_ws_cons in Hs.
    destruct (code c =? 44)%Z; [intros H%IHe; lia|].
    destruct (code c =? 93)%Z; [intros [= _ <-]; lia|done].
  - intros s acc v r. simpl.
    destruct (skip_ws s) as [|q s1] eqn:Hs; [done|]. apply skip_ws_cons in Hs.
    destruct (code q =? 34)%Z; [|done].
    destruct (read_string s1) as [k s2| |] eqn:Hk; [|done..].
    apply read_string_length in Hk.
    destruct (skip_ws s2) as [|c s3] eqn:Hs2; [done|].
    apply skip_ws_cons in Hs2.
    destruct (code c =? 58)%Z; [|done].
    destruct (parse_value fuel s3) as [v1 s4| |] eqn:Hv; [|done..].
    apply IHv in Hv.
    destruct (skip_ws s4) as [|d s5] eqn:Hs4; [done|].
    apply skip_ws_cons in Hs4.
    destruct (code d =? 44)%Z; [intros H%IHm; lia|].
    destruct (code d =? 125)%Z; [intros [= _ <-]; lia|done].
Qed.

(** With more fuel than twice the length of the text, no parsing function
    runs out of it. *)
Lemma parse_enough fuel :
  (forall s, 2 * String.length s < fuel -> parse_value fuel s <> Exhausted) /\
  (forall s acc,
     2 * String.length s + 1 < fuel ->
     parse_elements fuel s acc <> Exhausted) /\
  (forall s acc,
     2 * String.length s + 1 < fuel -> parse_members fuel s acc <> Exhausted).
Proof.
  induction fuel as [|fuel (IHv & IHe & IHm)]; [repeat split; intros; lia|].
  split; [|split].
  - intros s Hf. simpl.
    destruct (skip_ws s) as [|c s1] eqn:Hs; [done|]. apply skip_ws_cons in Hs.
    destruct (code c =? 123)%Z.
    { destruct (skip_ws s1) as [|c' s2] eqn:Hs1; [done|].
      destruct (code c' =? 125)%Z; [done|]. apply IHm. lia. }
    destruct (code c =? 91)%Z.
    { destruct (skip_ws s1) as [|c' s2] eqn:Hs1; [done|].
      destruct (code c' =? 93)%Z; [done|]. apply IHe. lia. }
    destruct (code c =? 34)%Z.
    { pose proof (read_string_fuel s1). by destruct (read_string s1). }
    destruct ((code c =? 45)%Z || is_digit c).
    { apply read_number_fuel. }
    apply read_literal_fuel.
  - intros s acc Hf. simpl.
    pose proof (IHv s) as Hne.
    destruct (parse_value fuel s) as [v1 r1| |] eqn:Hv; [|done|apply Hne; lia].
    apply (proj1 (parse_shorter fuel)) in Hv.
    destruct (skip_ws r1) as [|c r2] eqn:Hs; [done|]. apply skip_ws_cons in Hs.
    destruct (code c =? 44)%Z; [apply IHe; lia|].
    by destruct (code c =? 93)%Z.
  - intros s acc Hf. simpl.
    destruct (skip_ws s) as [|q s1] eqn:Hs; [done|]. apply skip_ws_cons in Hs.
    destruct (code q =? 34)%Z; [|done].
    pose proof (read_string_fuel s1) as Hk'.
    destruct (read_string s1) as [k s2| |] eqn:Hk; [|done..].
    apply read_string_length in Hk.
    destruct (skip_ws s2) as [|c s3] eqn:Hs2; [done|].
    apply skip_ws_cons in Hs2.
    destruct (code c =? 58)%Z; [|done].
    pose proof (IHv s3) as Hne.
    destruct (parse_value fuel s3) as [v1 s4| |] eqn:Hv;
      [|done|apply Hne; lia].
    apply (proj1 (parse_shorter fuel)) in Hv.
    destruct (skip_ws s4) as [|d s5] eqn:Hs4; [done|].
    apply skip_ws_cons in Hs4.
    destruct (code d =? 44)%Z; [apply IHm; lia|].
    by destruct (code d =? 125)%Z.
Qed.

(** [JSON_parse] gives its parser enough fuel for every text. *)
Lemma JSON_parse_fuel (text : string) :
  parse_value (fuel_for text) text <> Exhausted.
Proof. apply parse_enough. unfold fuel_for. lia. Qed.

Local Close Scope nat_scope.

(** An error of [JSON_parse] is a syntax error found in the text. *)
Lemma JSON_parse_Throw (text : string) (e : js_error) :
  JSON_parse text = Throw e ->
  e = SyntaxError "Unexpected token in JSON" /\
  (parse_value (fuel_for text) text = Unexpected \/
   exists v r c r',
     parse_value (fuel_for text) text = Parsed v r /\
     skip_ws r = String c r').
Proof.
  unfold JSON_parse. pose proof (JSON_parse_fuel text) as Hfuel.
  destruct (parse_value (fuel_for text) text) as [v r| |] eqn:Hp; [| |done].
  - destruct (skip_ws r) as [|c r'] eqn:Hr; [done|].
    intros [= <-]. split; [done|]. right. by exists v, r, c, r'.
  - intros [= <-]. split; [done|]. by left.
Qed.

(** ** The message handler *)

(** C3, as stated, fails: on a payload that is not JSON the handler ends
    with an error. *)
Lemma on_message_malformed_counterexample :
  on_message "message" "not json" []
  = (Throw (SyntaxError "Unexpected token in JSON"),
     [logged "[REDIS] Incoming : not json"]) /\
  ~ (forall message : string,
       ~ throws (fst (on_message "message" message []))).
Proof.
  split; [reflexivity|].
  intros H. apply (H "not json"). vm_compute. exact I.
Qed.

(** C3, amended: the handler logs every raw message first.  On a payload
    that is not JSON it ends with the [SyntaxError] of [JSON.parse]; on
    [null] and on a [CASINO_REWARD] whose [data] is missing or [null] it ends
    with a [TypeError]; it catches neither, and nothing is emitted.  On every
    other payload it returns normally, its last effect being the emission of
    the message's [event] and [data] to the room that its [to] names, handed
    to the socket server. *)
Theorem on_message_outcome (channel message : string) :
  let r := on_message channel message [] in
  let incoming := logged ("[REDIS] Incoming : " +:+ message) in
  head (snd r) = Some incoming /\
  match JSON_parse message with
  | Throw e =>
      e = SyntaxError "Unexpected token in JSON" /\ r = (Throw e, [incoming])
  | Ok v =>
      if unreadable v then
        exists text, r = (Throw (TypeError text), [incoming])
      else
        fst r = Ok tt /\
        last (snd r)
        = Some (emitted (member v f_to) (member v f_event) (member v f_data))
  end.
Proof.
  cbv zeta. unfold on_message, perform. unfold_run.
  destruct (JSON_parse message) as [v|e] eqn:Hparse.
  - destruct v as [|b|m x|str|items|ms]; simpl; eauto.
    destruct (is_casino_reward (own_property "event" ms)); simpl; eauto.
    destruct (own_property "data" ms) as [[|b|m x|str|items|ms']|]; simpl;
      eauto.
  - by apply JSON_parse_Throw in Hparse as [-> _].
Qed.

(** A reward message is handed to [increaseAmountWon] and then emitted; the
    same message without [data] ends the handler with a [TypeError]. *)
Example on_message_casino_reward :
  on_message "message"
    (quoted "{'event':'CASINO_REWARD','to':'A','data':{'reward':7}}") []
  = (Ok tt,
     [logged ("[REDIS] Incoming : " +:+
        quoted "{'event':'CASINO_REWARD','to':'A','data':{'reward':7}}");
      called_increaseAmountWon (Some (JString "A")) (Some (JNumber 7 0));
      emitted (Some (JString "A")) (Some (JString "CASINO_REWARD"))
        (Some (JObject [("reward", JNumber 7 0)]))]) /\
  fst (on_message "message" (quoted "{'event':'CASINO_REWARD','to':'A'}") [])
  = Throw (TypeError "Cannot read properties of undefined (reading 'reward')").
Proof. split; reflexivity. Qed.

(** * Further properties *)

(** ** Ranking *)

Lemma StronglySorted_lookup {A} (R : relation A) (l : list A) (j i : nat)
    (x y : A) :
  StronglySorted R l ->
  l !! j = Some x -> l !! i = Some y -> (j < i)%nat -> R x y.
Proof.
  intros Hs Hj Hi Hlt.
  rewrite <-(take_drop_middle l j x Hj) in Hs.
  apply StronglySorted_app in Hs as (_ & _ & Hs).
  apply StronglySorted_cons in Hs as [Hall _].
  rewrite Forall_forall in Hall. apply Hall.
  apply list_elem_of_lookup. exists (i - S j)%nat.
  rewrite lookup_drop. rewrite <-Hi. f_equal. lia.
Qed.

Lemma find_ranked_elem_of (w : World) (u : User) :
  u ∈ find_ranked w <-> is_Some (username u) /\ u ∈ users w.
Proof.
  unfold find_ranked. rewrite merge_sort_Permutation.
  by rewrite list_elem_of_filter.
Qed.

(** The position of a user with a username in the ranked order. *)
Lemma find_ranked_position (w : World) (u : User) :
  u ∈ users w -> is_Some (username u) ->
  exists i, find_ranked w !! i = Some u.
Proof.
  intros Hu Hname. apply list_elem_of_lookup. by apply find_ranked_elem_of.
Qed.

Lemma getRankByUserId_at (w : World) (i : nat) (u : User) :
  NoDup (_id <$> users w) ->
  find_ranked w !! i = Some u ->
  getRankByUserId (_id u) w
  = (Ok {| rank := Z.of_nat i + 1;
           toNextRank := gap_above (find_ranked w) i |}, w).
Proof.
  intros Hnd Hi. unfold getRankByUserId. unfold_run. f_equal. f_equal.
  apply (scan_found (_id u) _ i u); [by apply find_ranked_NoDup|done|done].
Qed.

Lemma gap_above_nonneg (w : World) (i : nat) :
  0 <= gap_above (find_ranked w) i.
Proof.
  destruct i as [|j]; simpl; [lia|].
  destruct (find_ranked w !! j) as [above|] eqn:Hj; [|lia].
  destruct (find_ranked w !! S j) as [u|] eqn:Hi; [|lia].
  assert (ranks_before above u) as Hr.
  { eapply (StronglySorted_lookup ranks_before); [|exact Hj|exact Hi|lia].
    unfold find_ranked. apply StronglySorted_merge_sort; apply _. }
  unfold ranks_before in Hr. lia.
Qed.

(** X1: a user id that belongs to no user with a username (an unknown id,
    or a user without a username) gets rank 0 and 0 to the next rank, and
    nothing is changed. *)
Theorem getRankByUserId_unranked (w : World) (userId : string) :
  (forall u, u ∈ users w -> _id u = userId -> username u = None) ->
  getRankByUserId userId w = (Ok {| rank := 0; toNextRank := 0 |}, w).
Proof.
  intros Hnone. unfold getRankByUserId. unfold_run. f_equal. f_equal.
  rewrite scan_others; [done|].
  apply Forall_forall. intros u [Hname Hu]%find_ranked_elem_of Hid.
  rewrite (Hnone u Hu Hid) in Hname. by destruct Hname.
Qed.

Lemma getRankByUserId_unranked_witness :
  getRankByUserId "ghost" leaderboard
  = (Ok {| rank := 0; toNextRank := 0 |}, leaderboard) /\
  getRankByUserId "E"
    (sample_world [sample_user "A" 100 1;
                   {| _id := "E"; username := None; amountWon := 500;
                      date := 2; status := "active"; tosConsentedAt := None;
                      currency := "WFAIR"; bonus := None |}] 10)
  = (Ok {| rank := 0; toNextRank := 0 |},
     sample_world [sample_user "A" 100 1;
                   {| _id := "E"; username := None; amountWon := 500;
                      date := 2; status := "active"; tosConsentedAt := None;
                      currency := "WFAIR"; bonus := None |}] 10).
Proof.
  split.
  - apply getRankByUserId_unranked. intros u Hu Hid.
    apply list_elem_of_In in Hu. simpl in Hu.
    destruct Hu as [<-|[<-|[<-|[<-|[]]]]]; discriminate Hid.
  - apply getRankByUserId_unranked. intros u Hu Hid.
    apply list_elem_of_In in Hu. simpl in Hu.
    destruct Hu as [<-|[<-|[]]]; [discriminate Hid|reflexivity].
Defined.

(** X2: with unique ids, a user with a username gets a rank between 1 and
    the number of users with a username, and a distance to the next rank that
    is never negative. *)
Theorem getRankByUserId_bounds (w : World) (u : User) :
  NoDup (_id <$> users w) ->
  u ∈ users w ->
  is_Some (username u) ->
  exists r,
    getRankByUserId (_id u) w = (Ok r, w) /\
    1 <= rank r
      <= Z.of_nat (length (filter (fun u => is_Some (username u)) (users w))) /\
    0 <= toNextRank r.
Proof.
  intros Hnd Hu Hname.
  destruct (find_ranked_position w u Hu Hname) as [i Hi].
  eexists. split; [by apply getRankByUserId_at|]. simpl.
  pose proof (lookup_lt_Some _ _ _ Hi) as Hlt.
  assert (length (find_ranked w)
          = length (filter (fun u => is_Some (username u)) (users w))) as Hlen.
  { unfold find_ranked. by rewrite merge_sort_Permutation. }
  split; [lia|]. apply gap_above_nonneg.
Qed.

Lemma getRankByUserId_bounds_witness :
  exists r,
    getRankByUserId "C" leaderboard = (Ok r, leaderboard) /\
    1 <= rank r <= 4 /\ 0 <= toNextRank r.
Proof.
  apply (getRankByUserId_bounds leaderboard (sample_user "C" 50 3)).
  - apply (bool_decide_unpack _). reflexivity.
  - apply list_elem_of_In. simpl. auto.
  - simpl. eauto.
Defined.

(** X3: with unique ids, of two users with a username the one who has won
    more, or as much and registered later, gets the smaller rank. *)
Theorem getRankByUserId_order (w : World) (u v : User) :
  NoDup (_id <$> users w) ->
  u ∈ users w -> is_Some (username u) ->
  v ∈ users w -> is_Some (username v) ->
  amountWon v < amountWon u \/
    (amountWon u = amountWon v /\ date v < date u) ->
  exists ru rv,
    getRankByUserId (_id u) w = (Ok ru, w) /\
    getRankByUserId (_id v) w = (Ok rv, w) /\
    rank ru < rank rv.
Proof.
  intros Hnd Hu Hnu Hv Hnv Hbetter.
  destruct (find_ranked_position w u Hu Hnu) as [i Hi].
  destruct (find_ranked_position w v Hv Hnv) as [j Hj].
  do 2 eexists. split; [by apply getRankByUserId_at|].
  split; [by apply getRankByUserId_at|]. simpl.
  assert (Hsorted : StronglySorted ranks_before (find_ranked w)).
  { unfold find_ranked. apply StronglySorted_merge_sort; apply _. }
  destruct (decide (i < j)%nat) as [|Hge]; [lia|].
  destruct (decide (i = j)) as [->|Hne].
  - rewrite Hi in Hj. injection Hj as ->. lia.
  - assert (ranks_before v u) as Hr.
    { eapply (StronglySorted_lookup ranks_before);
        [done|exact Hj|exact Hi|lia]. }
    unfold ranks_before in Hr. lia.
Qed.

Lemma getRankByUserId_order_witness :
  exists ru rv,
    getRankByUserId "B" leaderboard = (Ok ru, leaderboard) /\
    getRankByUserId "A" leaderboard = (Ok rv, leaderboard) /\
    rank ru < rank rv.
Proof.
  apply (getRankByUserId_order leaderboard (sample_user "B" 100 2)
           (sample_user "A" 100 1)).
  - apply (bool_decide_unpack _). reflexivity.
  - apply list_elem_of_In. simpl. auto.
  - simpl. eauto.
  - apply list_elem_of_In. simpl. auto.
  - simpl. eauto.
  - right. simpl. lia.
Defined.

(** X4: with unique ids, two different users with a username never get the
    same rank, whatever their amounts. *)
Theorem getRankByUserId_distinct (w : World) (u v : User) :
  NoDup (_id <$> users w) ->
  u ∈ users w -> is_Some (username u) ->
  v ∈ users w -> is_Some (username v) ->
  u <> v ->
  exists ru rv,
    getRankByUserId (_id u) w = (Ok ru, w) /\
    getRankByUserId (_id v) w = (Ok rv, w) /\
    rank ru <> rank rv.
Proof.
  intros Hnd Hu Hnu Hv Hnv Hne.
  destruct (find_ranked_position w u Hu Hnu) as [i Hi].
  destruct (find_ranked_position w v Hv Hnv) as [j Hj].
  do 2 eexists. split; [by apply getRankByUserId_at|].
  split; [by apply getRankByUserId_at|]. simpl.
  intros Heq. assert (i = j) as -> by lia.
  rewrite Hi in Hj. by injection Hj.
Qed.

Lemma getRankByUserId_distinct_witness :
  exists ru rv,
    getRankByUserId "A" leaderboard = (Ok ru, leaderboard) /\
    getRankByUserId "B" leaderboard = (Ok rv, leaderboard) /\
    rank ru <> rank rv.
Proof.
  apply (getRankByUserId_distinct leaderboard (sample_user "A" 100 1)
           (sample_user "B" 100 2)).
  - apply (bool_decide_unpack _). reflexivity.
  - apply list_elem_of_In. simpl. auto.
  - simpl. eauto.
  - apply list_elem_of_In. simpl. auto.
  - simpl. eauto.
  - discriminate.
Defined.

(** ** Awards *)

(** X5: whatever the award data, [createUserAwardEvent] returns normally
    and publishes exactly one [user_award] message that carries the award
    data as given, with [broadcast] false unless given; the mint is attempted,
    and its failure logged, only for a nonzero award; the users are not
    touched. *)
Theorem createUserAwardEvent_always_publishes (userId : string)
    (awardData : option AwardData) (broadcast : option bool) (w : World) :
  let r := createUserAwardEvent userId awardData broadcast w in
  fst r = Ok tt /\
  amqp (snd r)
  = amqp w ++
    [{| exchange := "universal_events"; routingKey := "event.user_award";
        content := EVENT_USER_AWARD userId awardData
                     (default false broadcast) |}] /\
  console (snd r)
  = console w ++
    (if truthy (awardData ≫= award)
     then [console_error "award mintUser" (Error "Not supported")] else []) /\
  users (snd r) = users w /\ wallet (snd r) = wallet w.
Proof.
  cbv zeta. unfold createUserAwardEvent, mintUser. unfold_run.
  destruct (truthy (awardData ≫= award)); simpl; rewrite ?app_nil_r; done.
Qed.

(** X6: [checkTotalBetsAward] never throws.  When the statistics call
    fails, the failure is logged and nothing else happens; when it reports no
    total, or 0, nothing happens at all. *)
Theorem checkTotalBetsAward_no_total (table : Z -> option Z)
    (userId : string) (w : World) :
  let r := checkTotalBetsAward table userId w in
  fst r = Ok tt /\
  match betsAmount w userId with
  | Throw e =>
      snd r
      = with_console (console w ++ [console_error "getUserBetsAmount" e]) w
  | Ok {| totalBets := None |} | Ok {| totalBets := Some 0 |} => snd r = w
  | Ok {| totalBets := Some _ |} => True
  end.
Proof.
  cbv zeta. unfold checkTotalBetsAward, getUserBetsAmount. unfold_run.
  destruct (betsAmount w userId) as [[[t|]]|e]; cbn -[includes]; [|done..].
  rewrite or_zero_Some.
  split.
  - destruct (includes milestones t); [|done].
    unfold createUserAwardEvent, mintUser. unfold_run. simpl.
    by destruct (truthy (table t)).
  - destruct t; try done.
Qed.

(** X7: the evaluator keeps no record of what it has awarded: called twice
    while the user's total stays on a milestone, it publishes the award
    twice. *)
Theorem checkTotalBetsAward_fires_again (table : Z -> option Z)
    (userId : string) (total : Z) (w : World) :
  total ∈ milestones ->
  amqp (check_after_totals table userId [total; total] w)
  = amqp w ++ [milestone_message table userId total;
               milestone_message table userId total].
Proof.
  intros Hm%includes_elem_of. rewrite check_after_totals_amqp.
  cbn [List.filter]. by rewrite Hm.
Qed.

Lemma checkTotalBetsAward_fires_again_witness :
  amqp (check_after_totals sample_rewards "A" [5; 5] leaderboard)
  = [milestone_message sample_rewards "A" 5;
     milestone_message sample_rewards "A" 5].
Proof.
  apply (checkTotalBetsAward_fires_again sample_rewards "A" 5 leaderboard).
  apply includes_elem_of. reflexivity.
Defined.

(** X8: a referral reward cannot be paid: with a referrer given,
    [rewardUserAction] fails with [Not supported] whatever the amount, and
    without one it does nothing; in both cases nothing is changed. *)
Theorem rewardUserAction_never_pays (ref : option string) (amount : Z)
    (w : World) :
  rewardUserAction ref amount w
  = (if truthy_string ref then Throw (Error "Not supported") else Ok tt, w) /\
  (throws (fst (rewardUserAction ref amount w)) <->
   exists s, ref = Some s /\ s <> "").
Proof.
  unfold rewardUserAction, mintUser. unfold_run.
  destruct ref as [s|]; simpl.
  - destruct (String.eqb_spec s ""); simpl.
    + split; [done|]. split; [done|]. intros (s' & [= <-] & Hne). done.
    + split; [done|]. split; [|done]. intros _. by exists s.
  - split; [done|]. split; [done|]. by intros (s & ? & _).
Qed.

(** ** Updates of one user *)

Lemma find_update_by_id_other id id' f us :
  id' <> id ->
  (forall u, _id (f u) = _id u) ->
  List.find (has_id id') (update_by_id id f us) = List.find (has_id id') us.
Proof.
  intros Hne Hid. induction us as [|u us IH]; simpl; [done|].
  destruct (has_id id u) eqn:Hu; simpl; [|by rewrite IH].
  apply has_id_true in Hu.
  assert (has_id id' u = false) as -> by (apply has_id_false; congruence).
  assert (has_id id' (f u) = false) as ->; [|done].
  apply has_id_false. rewrite Hid. congruence.
Qed.

Lemma update_by_id_ids id f us :
  (forall u, _id (f u) = _id u) ->
  _id <$> update_by_id id f us = _id <$> us.
Proof.
  intros Hid. induction us as [|u us IH]; simpl; [done|].
  destruct (has_id id u); rewrite !fmap_cons; [by rewrite Hid|].
  by rewrite IH.
Qed.

(** What saving one modified path of a stored user does to the collection:
    that user is replaced by the modified document, every other id reads as
    before, and no document is added or removed. *)
Lemma saved_collection (userId : string) (f : User -> User) (w : World)
    (u : User) :
  (forall d, _id (f d) = _id d) ->
  findById userId w = Some u ->
  let w' := with_users (update_by_id userId f (users w)) w in
  findById userId w' = Some (f u) /\
  (forall id', id' <> userId -> findById id' w' = findById id' w) /\
  _id <$> users w' = _id <$> users w.
Proof.
  intros Hid Hu. cbv zeta. unfold findById in *. simpl.
  split; [by rewrite find_update_by_id, Hu|].
  split; [intros id' Hne; by apply find_update_by_id_other|].
  by apply update_by_id_ids.
Qed.




(** The text of a time does not tell its milliseconds: two times within
    the same second read the same. *)
Lemma toUTCString_seconds (t1 t2 : Z) :
  time_value t1 -> time_value t2 ->
  t1 / 1000 = t2 / 1000 -> toUTCString t1 = toUTCString t2.
Proof.
  unfold time_value. intros H1 H2 Hsec. unfold toUTCString.
  assert (forall t, - 8640000000000000 <= t <= 8640000000000000 ->
            (t <? - 8640000000000000) || (8640000000000000 <? t) = false)
    as Hin.
  { intros t Ht. apply orb_false_iff. split; apply Z.ltb_ge; lia. }
  assert (forall t c, 0 < c -> t / (1000 * c) = t / 1000 / c) as Hdiv
    by (intros t c Hc; rewrite Z.div_div by lia; done).
  rewrite (Hin t1 H1), (Hin t2 H2).
  change 86400000 with (1000 * 86400).
  change 3600000 with (1000 * 3600).
  change 60000 with (1000 * 60).
  rewrite !Hdiv by lia. by rewrite Hsec.
Qed.

(** X10: for a user that exists, [updateUserConsent] stores the text of the
    time of the call as the consent time of that user and returns the updated
    document; the text has whole seconds, so the milliseconds of the clock
    are not kept.  Every other user reads as before and nothing is sent or
    logged. *)
Theorem updateUserConsent_existing (userId : string) (w : World) (u : User) :
  findById userId w = Some u ->
  time_value (now w) ->
  let r := updateUserConsent userId w in
  let text := toUTCString (now w) in
  fst r = Ok (set_tosConsentedAt text u) /\
  findById userId (snd r) = Some (set_tosConsentedAt text u) /\
  text = toUTCString (1000 * (now w / 1000)) /\
  (forall id', id' <> userId -> findById id' (snd r) = findById id' w) /\
  _id <$> users (snd r) = _id <$> users w /\
  amqp (snd r) = amqp w /\ console (snd r) = console w.
Proof.
  intros Hu Hnow. cbv zeta. unfold updateUserConsent, save. unfold_run.
  rewrite Hu, Hu. simpl. split; [done|].
  destruct (saved_collection userId
              (set_tosConsentedAt (toUTCString (now w))) w u)
    as (? & ? & ?); [done|done|].
  repeat split; try done.
  apply toUTCString_seconds; [done|..].
  - unfold time_value in *. Z.div_mod_to_equations. lia.
  - rewrite Z.mul_comm, Z.div_mul by lia. done.
Qed.

Lemma updateUserConsent_existing_witness :
  let r := updateUserConsent "A" leaderboard in
  fst r
  = Ok (set_tosConsentedAt "Thu, 01 Jan 1970 00:00:00 GMT"
          (sample_user "A" 100 1)) /\
  tosConsentedAt <$> findById "A" (snd r)
  = Some (Some "Thu, 01 Jan 1970 00:00:00 GMT").
Proof.
  destruct (updateUserConsent_existing "A" leaderboard
              (sample_user "A" 100 1) eq_refl) as (H1 & H2 & _).
  - unfold time_value. simpl. lia.
  - split; [exact H1|]. by rewrite H2.
Defined.

(** The texts of four times: the epoch, the millisecond before it, a time
    in 2023 and the leap day of 2024. *)
Example toUTCString_samples :
  toUTCString 10 = "Thu, 01 Jan 1970 00:00:00 GMT" /\
  toUTCString (- 1) = "Wed, 31 Dec 1969 23:59:59 GMT" /\
  toUTCString 1700000000123 = "Tue, 14 Nov 2023 22:13:20 GMT" /\
  toUTCString 1709164800000 = "Thu, 29 Feb 2024 00:00:00 GMT".
Proof. repeat split; reflexivity. Qed.

(** X11: for a user that exists and whole amounts in the range of the safe
    integers, [increaseAmountWon] returns normally and changes only
    [amountWon] of that user, by the amount; every other user reads as before,
    no user is added or removed, and nothing is sent or logged. *)
Theorem increaseAmountWon_existing (userId : string) (amount : Z)
    (w : World) (u : User) :
  findById userId w = Some u ->
  isSafeInteger (amountWon u) ->
  isSafeInteger amount ->
  isSafeInteger (amountWon u + amount) ->
  let r := increaseAmountWon userId amount w in
  fst r = Ok tt /\
  findById userId (snd r) = Some (set_amountWon (amountWon u + amount) u) /\
  (forall id', id' <> userId -> findById id' (snd r) = findById id' w) /\
  _id <$> users (snd r) = _id <$> users w /\
  amqp (snd r) = amqp w /\ console (snd r) = console w.
Proof.
  intros Hu _ _ _. cbv zeta. rewrite (increaseAmountWon_adds _ _ _ _ Hu).
  simpl. split; [done|].
  destruct (saved_collection userId (set_amountWon (amountWon u + amount)) w u)
    as (? & ? & ?); done.
Qed.

Lemma increaseAmountWon_existing_witness :
  let r := increaseAmountWon "C" 7 leaderboard in
  fst r = Ok tt /\
  findById "C" (snd r) = Some (sample_user "C" 57 3) /\
  findById "D" (snd r) = Some (sample_user "D" 10 4).
Proof.
  destruct (increaseAmountWon_existing "C" 7 leaderboard
              (sample_user "C" 50 3) eq_refl) as (H1 & H2 & H3 & _);
    [unfold isSafeInteger, MAX_SAFE_INTEGER; simpl; lia..|].
  split; [exact H1|]. split; [exact H2|]. by rewrite H3.
Defined.

Lemma update_by_id_twice id f g us :
  (forall u, _id (f u) = _id u) ->
  update_by_id id g (update_by_id id f us)
  = update_by_id id (fun u => g (f u)) us.
Proof.
  intros Hid. induction us as [|u us IH]; simpl; [done|].
  destruct (has_id id u) eqn:Hu; simpl.
  - assert (has_id id (f u) = true) as ->; [|done].
    apply has_id_true. rewrite Hid. by apply has_id_true.
  - by rewrite Hu, IH.
Qed.

Lemma update_by_id_ext id f g us :
  (forall u, u ∈ us -> f u = g u) ->
  update_by_id id f us = update_by_id id g us.
Proof.
  induction us as [|u us IH]; intros Hfg; simpl; [done|].
  destruct (has_id id u).
  - f_equal. apply Hfg. left.
  - f_equal. apply IH. intros v Hv. apply Hfg. by right.
Qed.

Lemma update_by_id_found id f us u :
  List.find (has_id id) us = Some u -> f u = u -> update_by_id id f us = us.
Proof.
  intros Hfind Hf. induction us as [|x us IH]; simpl; [done|].
  simpl in Hfind. destruct (has_id id x).
  - injection Hfind as ->. by rewrite Hf.
  - f_equal. by apply IH.
Qed.

Lemma set_amountWon_same (u : User) : set_amountWon (amountWon u) u = u.
Proof. by destruct u. Qed.

Lemma with_users_same (w : World) : with_users (users w) w = w.
Proof. by destruct w. Qed.

(** The world after calls awaited in turn, as one call with the sum. *)
Lemma increase_in_turn_total (userId : string) (amounts : list Z) (w : World)
    (u : User) :
  findById userId w = Some u ->
  increase_in_turn userId amounts w
  = with_users
      (update_by_id userId
         (set_amountWon (amountWon u + foldr Z.add 0 amounts)) (users w)) w.
Proof.
  unfold increase_in_turn. revert w u.
  induction amounts as [|a amounts IH]; intros w u Hu.
  - simpl. rewrite Z.add_0_r.
    rewrite (update_by_id_found _ _ _ u); [by rewrite with_users_same|done|].
    apply set_amountWon_same.
  - cbn [fold_left foldr]. rewrite (increaseAmountWon_adds _ _ _ _ Hu).
    cbn [snd].
    rewrite (IH _ (set_amountWon (amountWon u + a) u))
      by (by apply findById_after_save).
    unfold with_users. simpl. f_equal.
    rewrite update_by_id_twice by done.
    apply update_by_id_ext. intros v _. unfold set_amountWon. simpl.
    f_equal. lia.
Qed.

(** X12: for a user that exists and whole amounts whose sizes, added to
    the size of the amount already won, stay in the range of the safe
    integers, calls of [increaseAmountWon] awaited one after another leave the
    same world as a single call with the sum of the amounts, so their order
    does not matter. *)
Theorem increaseAmountWon_in_turn (userId : string) (amounts : list Z)
    (w : World) (u : User) :
  findById userId w = Some u ->
  Z.abs (amountWon u) + foldr Z.add 0 (Z.abs <$> amounts)
    <= MAX_SAFE_INTEGER ->
  increase_in_turn userId amounts w
  = snd (increaseAmountWon userId (foldr Z.add 0 amounts) w) /\
  (forall amounts',
     amounts ≡ₚ amounts' ->
     increase_in_turn userId amounts' w = increase_in_turn userId amounts w).
Proof.
  intros Hu _. split.
  - rewrite (increase_in_turn_total _ _ _ _ Hu).
    by rewrite (increaseAmountWon_adds _ _ _ _ Hu).
  - intros amounts' Hperm. rewrite !(increase_in_turn_total _ _ _ _ Hu).
    assert (foldr Z.add 0 amounts = foldr Z.add 0 amounts') as ->; [|done].
    induction Hperm; simpl; lia.
Qed.

Lemma increaseAmountWon_in_turn_witness :
  increase_in_turn "A" [10; 5] leaderboard
  = snd (increaseAmountWon "A" 15 leaderboard) /\
  increase_in_turn "A" [5; 10] leaderboard
  = increase_in_turn "A" [10; 5] leaderboard.
Proof.
  destruct (increaseAmountWon_in_turn "A" [10; 5] leaderboard
              (sample_user "A" 100 1) eq_refl) as [H1 H2];
    [unfold MAX_SAFE_INTEGER; simpl; lia|].
  split; [exact H1|]. apply H2. apply perm_swap.
Defined.

(** X13: the sign of the amount is not checked: for whole amounts in the
    range of the safe integers, a negative amount lowers [amountWon], and a
    call followed by a call with the opposite amount leaves the world as it
    was. *)
Theorem increaseAmountWon_undone (userId : string) (amount : Z) (w : World)
    (u : User) :
  findById userId w = Some u ->
  isSafeInteger (amountWon u) ->
  isSafeInteger amount ->
  isSafeInteger (amountWon u - amount) ->
  isSafeInteger (amountWon u + amount) ->
  amountWon <$> findById userId (snd (increaseAmountWon userId (- amount) w))
  = Some (amountWon u - amount) /\
  increase_in_turn userId [amount; - amount] w = w.
Proof.
  intros Hu _ _ _ _. split.
  - rewrite (increaseAmountWon_adds _ _ _ _ Hu). simpl.
    rewrite (findById_after_save _ _ _ _ Hu). simpl. f_equal; lia.
  - rewrite (increase_in_turn_total _ _ _ _ Hu). simpl.
    replace (amountWon u + (amount + (- amount + 0))) with (amountWon u) by lia.
    pose proof (increase_in_turn_total userId [] w u Hu) as Hnil.
    simpl in Hnil. rewrite Z.add_0_r in Hnil. by rewrite <-Hnil.
Qed.

Lemma increaseAmountWon_undone_witness :
  amountWon <$> findById "A" (snd (increaseAmountWon "A" (- 30) leaderboard))
  = Some 70 /\
  increase_in_turn "A" [30; - 30] leaderboard = leaderboard.
Proof.
  apply (increaseAmountWon_undone "A" 30 leaderboard (sample_user "A" 100 1));
    [reflexivity|unfold isSafeInteger, MAX_SAFE_INTEGER; simpl; lia..].
Defined.

(** ** Preferences *)

(** [updateUserPreferences] on a user that exists, as a function of the
    preferences. *)
Lemma updateUserPreferences_run (userId : string)
    (preferences : option Preferences) (w : World) (u : User) :
  findById userId w = Some u ->
  updateUserPreferences userId preferences w
  = match preferences with
    | None =>
        (Ok u,
         with_users (update_by_id userId (fun d => d) (users w))
           (with_amqp
              (amqp w ++
               [{| exchange := "universal_events";
                   routingKey := "event.user_set_currency";
                   content := EVENT_USER_SET_CURRENCY userId (currency u) |}])
              w))
    | Some p =>
        match pref_currency p with
        | Some c =>
            if valid_currency (Some c) then
              (Ok (set_currency c u),
               with_users (update_by_id userId (set_currency c) (users w))
                 (with_amqp
                    (amqp w ++
                     [{| exchange := "universal_events";
                         routingKey := "event.user_set_currency";
                         content := EVENT_USER_SET_CURRENCY userId c |}]) w))
            else (Throw (invalid_currency (Some c)), w)
        | None => (Throw (invalid_currency None), w)
        end
    end.
Proof.
  intros Hu. unfold updateUserPreferences, amqp_send, save. unfold_run.
  rewrite Hu. destruct preferences as [[[c|]]|].
  - cbn [pref_currency]. destruct (valid_currency (Some c)); simpl; [|done].
    unfold findById in *. simpl. by rewrite Hu.
  - done.
  - simpl. unfold findById in *. simpl. by rewrite Hu.
Qed.

(** X14: without preferences, [updateUserPreferences] on a user that
    exists changes no user, publishes one [user_set_currency] message with
    the currency already stored, and returns the user. *)
Theorem updateUserPreferences_absent (userId : string) (w : World)
    (u : User) :
  findById userId w = Some u ->
  updateUserPreferences userId None w
  = (Ok u,
     with_amqp
       (amqp w ++
        [{| exchange := "universal_events";
            routingKey := "event.user_set_currency";
            content := EVENT_USER_SET_CURRENCY userId (currency u) |}]) w).
Proof.
  intros Hu. rewrite (updateUserPreferences_run _ _ _ _ Hu). f_equal.
  rewrite (update_by_id_found _ _ _ u) by done.
  exact (with_users_same (with_amqp _ w)).
Qed.

Lemma updateUserPreferences_absent_witness :
  updateUserPreferences "A" None leaderboard
  = (Ok (sample_user "A" 100 1),
     with_amqp
       [{| exchange := "universal_events";
           routingKey := "event.user_set_currency";
           content := EVENT_USER_SET_CURRENCY "A" "WFAIR" |}] leaderboard).
Proof.
  apply (updateUserPreferences_absent "A" leaderboard (sample_user "A" 100 1)).
  reflexivity.
Defined.

Lemma updateUserPreferences_no_user (userId : string)
    (preferences : option Preferences) (w : World) :
  findById userId w = None ->
  updateUserPreferences userId preferences w
  = (Throw
       match preferences with
       | Some p =>
           if valid_currency (pref_currency p) then null_preferences
           else invalid_currency (pref_currency p)
       | None => null_preferences
       end, w).
Proof.
  intros Hu. unfold updateUserPreferences. unfold_run. rewrite Hu.
  destruct preferences as [p|]; [|done]. simpl.
  by destruct (valid_currency (pref_currency p)).
Qed.

(** X15: on an id that names no user, [updateUserPreferences] never
    returns normally and changes nothing: it throws the invalid-currency error
    when preferences are given with a currency outside the list, and otherwise
    a [TypeError] from reading [preferences] of [null]. *)
Theorem updateUserPreferences_missing_user (userId : string)
    (preferences : option Preferences) (w : World) :
  findById userId w = None ->
  updateUserPreferences userId preferences w
  = (Throw
       match preferences with
       | Some p =>
           if valid_currency (pref_currency p) then null_preferences
           else invalid_currency (pref_currency p)
       | None => null_preferences
       end, w).
Proof. apply updateUserPreferences_no_user. Qed.

Lemma updateUserPreferences_missing_user_witness :
  updateUserPreferences "ghost" (Some {| pref_currency := Some "EUR" |})
    leaderboard
  = (Throw null_preferences, leaderboard) /\
  updateUserPreferences "ghost" None leaderboard
  = (Throw null_preferences, leaderboard).
Proof.
  split.
  - apply (updateUserPreferences_missing_user "ghost"
             (Some {| pref_currency := Some "EUR" |}) leaderboard).
    reflexivity.
  - apply (updateUserPreferences_missing_user "ghost" None leaderboard).
    reflexivity.
Defined.

(** X16: whenever [updateUserPreferences] returns a user, it has published
    exactly one [user_set_currency] message, and the currency of that message
    is the currency of the returned user and the one then stored under the
    id; every other user reads as before. *)
Theorem updateUserPreferences_event (userId : string)
    (preferences : option Preferences) (w : World) (u' : User) :
  fst (updateUserPreferences userId preferences w) = Ok u' ->
  let w' := snd (updateUserPreferences userId preferences w) in
  amqp w'
  = amqp w ++
    [{| exchange := "universal_events";
        routingKey := "event.user_set_currency";
        content := EVENT_USER_SET_CURRENCY userId (currency u') |}] /\
  findById userId w' = Some u' /\
  (forall id', id' <> userId -> findById id' w' = findById id' w).
Proof.
  intros Hok. cbv zeta.
  destruct (findById userId w) as [u|] eqn:Hu.
  - rewrite (updateUserPreferences_run _ _ _ _ Hu) in *.
    destruct preferences as [[[c|]]|]; cbn [pref_currency] in *.
    + destruct (valid_currency (Some c)); simpl in *; [|done].
      injection Hok as <-. split; [done|].
      destruct (saved_collection userId (set_currency c)
                  (with_amqp
                     (amqp w ++
                      [{| exchange := "universal_events";
                          routingKey := "event.user_set_currency";
                          content := EVENT_USER_SET_CURRENCY userId c |}]) w)
                  u) as (H1 & H2 & _); done.
    + done.
    + injection Hok as <-. split; [done|].
      rewrite (update_by_id_found _ _ _ u) by done. done.
  - rewrite (updateUserPreferences_no_user _ _ _ Hu) in Hok. done.
Qed.

Lemma updateUserPreferences_event_witness :
  amqp (snd (updateUserPreferences "A"
               (Some {| pref_currency := Some "USD" |}) leaderboard))
  = [{| exchange := "universal_events";
        routingKey := "event.user_set_currency";
        content := EVENT_USER_SET_CURRENCY "A" "USD" |}].
Proof.
  apply (updateUserPreferences_event "A"
           (Some {| pref_currency := Some "USD" |}) leaderboard
           (set_currency "USD" (sample_user "A" 100 1))).
  reflexivity.
Defined.

(** ** Registration bonus *)

(** X18: the call does not look at the user it is made for: made twice in
    turn for the same user before the deadline, with fewer than 1000 holders,
    it transfers the bonus twice. *)
Theorem checkUserRegistrationBonus_repeated (b : BonusType)
    (userId : string) (w : World) :
  date_lt (bonus_endDate b) (Some (now w)) = false ->
  (length (find_bonus b w) < 1000)%nat ->
  wallet (register_in_turn b [userId; userId] w)
  = wallet w ++ [(bonus_amount b, userId); (bonus_amount b, userId)].
Proof.
  intros Hd Hn. rewrite register_in_turn_grants_all; [done|done|simpl; lia].
Qed.

Lemma checkUserRegistrationBonus_repeated_witness :
  wallet (register_in_turn sample_launch ["A"; "A"] leaderboard)
  = [(500, "A"); (500, "A")].
Proof.
  apply (checkUserRegistrationBonus_repeated sample_launch "A" leaderboard).
  - reflexivity.
  - vm_compute. lia.
Defined.

(** X19: once the deadline has passed, or once more than 1000 users hold
    the bonus, no sequence of calls made in turn grants anything or changes
    anything. *)
Theorem checkUserRegistrationBonus_closed (b : BonusType)
    (userIds : list string) (w : World) :
  date_lt (bonus_endDate b) (Some (now w)) = true \/
    (1000 < length (find_bonus b w))%nat ->
  register_in_turn b userIds w = w.
Proof.
  intros Hclosed. unfold register_in_turn.
  induction userIds as [|userId userIds IH]; simpl; [done|].
  assert (checkUserRegistrationBonus b userId w = (Ok tt, w)) as ->; [|done].
  unfold checkUserRegistrationBonus. unfold_run.
  destruct (date_lt (bonus_endDate b) (Some (now w))); [done|].
  destruct Hclosed as [|Hfull]; [done|].
  by destruct (Z.leb_spec (Z.of_nat (length (find_bonus b w))) 1000); [lia|].
Qed.

Lemma checkUserRegistrationBonus_closed_witness :
  register_in_turn sample_launch ["A"; "B"; "C"]
    (sample_world (users leaderboard) 2001)
  = sample_world (users leaderboard) 2001.
Proof.
  apply (checkUserRegistrationBonus_closed sample_launch).
  left. reflexivity.
Defined.

(** ** The message handler *)

(** X20: a message that decodes to anything but [null] and whose [event]
    is not the string [CASINO_REWARD] is logged and emitted, in that order and
    with nothing else done: its [to], [event] and [data] are passed on as they
    are ([undefined] when missing) and [increaseAmountWon] is not called. *)
Theorem on_message_plain (channel message : string) (v : json)
    (done : list effect) :
  JSON_parse message = Ok v ->
  v <> JNull ->
  is_casino_reward (member v f_event) = false ->
  on_message channel message done
  = (Ok tt,
     done ++ [logged ("[REDIS] Incoming : " +:+ message);
              emitted (member v f_to) (member v f_event) (member v f_data)]).
Proof.
  intros Hparse Hnull Hevent. unfold on_message, perform. unfold_run.
  rewrite Hparse.
  destruct v as [|b|m x|str|items|ms]; [done|simpl in *..];
    rewrite ?Hevent; simpl; by rewrite <-app_assoc.
Qed.

Lemma on_message_plain_witness :
  on_message "message" (quoted "{'event':'BET_STARTED','to':'A'}") []
  = (Ok tt,
     [logged ("[REDIS] Incoming : " +:+
              quoted "{'event':'BET_STARTED','to':'A'}");
      emitted (Some (JString "A")) (Some (JString "BET_STARTED")) None]) /\
  on_message "message" "[1, 2]" []
  = (Ok tt, [logged "[REDIS] Incoming : [1, 2]"; emitted None None None]).
Proof.
  split.
  - apply (on_message_plain "message" _
             (JObject [("event", JString "BET_STARTED"); ("to", JString "A")])
             []); [reflexivity|discriminate|reflexivity].
  - apply (on_message_plain "message" _ (JArray [JNumber 1 0; JNumber 2 0])
             []); [reflexivity|discriminate|reflexivity].
Defined.

(** X21: a [CASINO_REWARD] message whose [data] is present and not [null]
    is logged, then handed to [increaseAmountWon] with its [to] and its
    [data.reward], then emitted: the update of the amount won is started
    before the emission, and both happen exactly once. *)
Theorem on_message_reward (channel message : string) (v d : json)
    (done : list effect) :
  JSON_parse message = Ok v ->
  member v f_event = Some (JString "CASINO_REWARD") ->
  member v f_data = Some d ->
  d <> JNull ->
  on_message channel message done
  = (Ok tt,
     done ++ [logged ("[REDIS] Incoming : " +:+ message);
              called_increaseAmountWon (member v f_to) (member d f_reward);
              emitted (member v f_to) (Some (JString "CASINO_REWARD"))
                (Some d)]).
Proof.
  intros Hparse Hevent Hdata Hnull. unfold on_message, perform. unfold_run.
  rewrite Hparse.
  destruct v as [|b|m x|str|items|ms]; try discriminate Hevent.
  simpl in *. rewrite Hevent, Hdata. simpl.
  destruct d as [|b|m x|str|items|ms']; [done|simpl..];
    by rewrite <-!app_assoc.
Qed.

Lemma on_message_reward_witness :
  on_message "message"
    (quoted "{'event':'CASINO_REWARD','to':'A','data':{'reward':7}}") []
  = (Ok tt,
     [logged ("[REDIS] Incoming : " +:+
        quoted "{'event':'CASINO_REWARD','to':'A','data':{'reward':7}}");
      called_increaseAmountWon (Some (JString "A")) (Some (JNumber 7 0));
      emitted (Some (JString "A")) (Some (JString "CASINO_REWARD"))
        (Some (JObject [("reward", JNumber 7 0)]))]).
Proof.
  apply (on_message_reward "message" _
           (JObject [("event", JString "CASINO_REWARD"); ("to", JString "A");
                     ("data", JObject [("reward", JNumber 7 0)])])
           (JObject [("reward", JNumber 7 0)]) []);
    [reflexivity|reflexivity|reflexivity|discriminate].
Defined.

(** ** Overlapping calls *)

(** X22: two overlapping calls of [increaseAmountWon] on a user that
    exists, with whole amounts whose sums stay in the range of the safe
    integers, always settle without an error, and of the six ways their reads
    and saves can interleave only the two in which one call finishes before
    the other starts add both amounts; in the other four the user ends with
    the initial amount plus the amount of the call that saved last. *)
Theorem increaseAmountWon_two_calls (userId : string) (d1 d2 : Z)
    (w : World) (u : User) (schedule : list nat) :
  findById userId w = Some u ->
  Forall isSafeInteger
    [amountWon u; d1; d2; amountWon u + d1; amountWon u + d2;
     amountWon u + d1 + d2] ->
  schedule ∈ interleavings [0; 0]%nat [1; 1]%nat ->
  let r := run_schedule schedule [finding userId d1; finding userId d2] w in
  fst r = [settled (Ok tt); settled (Ok tt)] /\
  amountWon <$> findById userId (snd r)
  = Some (if bool_decide (schedule = [0; 0; 1; 1]%nat \/
                          schedule = [1; 1; 0; 0]%nat)
          then amountWon u + d1 + d2
          else if bool_decide (last schedule = Some 1%nat)
               then amountWon u + d2 else amountWon u + d1).
Proof.
  intros Hu _ Hin. cbv zeta.
  apply list_elem_of_In in Hin. simpl in Hin.
  destruct Hin as [<-|[<-|[<-|[<-|[<-|[<-|[]]]]]]];
    cbn -[call_step findById with_users update_by_id bool_decide];
    repeat (first
      [ erewrite call_step_finding by eauto using findById_after_save
      | erewrite call_step_saving by eauto using findById_after_save ];
      cbn -[call_step findById with_users update_by_id bool_decide]);
    (split; [done|]);
    erewrite findById_after_save by eauto using findById_after_save;
    cbn -[bool_decide]; f_equal;
    repeat case_bool_decide; first [lia | exfalso; naive_solver].
Qed.

Lemma increaseAmountWon_two_calls_witness :
  amountWon <$>
    findById "A"
      (snd (run_schedule [1; 0; 0; 1]%nat [finding "A" 10; finding "A" 5]
              leaderboard))
  = Some 105.
Proof.
  apply (increaseAmountWon_two_calls "A" 10 5 leaderboard
           (sample_user "A" 100 1) [1; 0; 0; 1]%nat).
  - reflexivity.
  - unfold isSafeInteger, MAX_SAFE_INTEGER. simpl. repeat constructor; lia.
  - apply list_elem_of_In. simpl. auto 10.
Defined.

(** ** Winnings *)

(** X23: [getTotalWin] never decreases when the balance grows, is 0
    exactly up to a balance of 5000, and above that gives the balance back
    when the initial liquidity is added. *)
Theorem getTotalWin_monotone (b1 b2 : Z) :
  b1 <= b2 ->
  getTotalWin b1 <= getTotalWin b2 /\
  (getTotalWin b1 = 0 <-> b1 <= 5000) /\
  (5000 <= b1 -> getTotalWin b1 + INITIAL_LIQUIDITY = b1).
Proof.
  unfold getTotalWin, INITIAL_LIQUIDITY. intros Hle.
  destruct (Z.ltb_spec (b1 - 5000) 0), (Z.ltb_spec (b2 - 5000) 0); lia.
Qed.

Lemma getTotalWin_monotone_witness :
  getTotalWin 4000 <= getTotalWin 7000 /\
  (getTotalWin 4000 = 0 <-> 4000 <= 5000) /\
  (5000 <= 4000 -> getTotalWin 4000 + INITIAL_LIQUIDITY = 4000).
Proof. apply (getTotalWin_monotone 4000 7000). lia. Defined.
(** ** The database URL *)

Lemma strip_prefix_app (p s : string) : strip_prefix p (p +:+ s) = Some s.
Proof.
  induction p as [|a p IH]; simpl; [by destruct s|].
  by rewrite Ascii.eqb_refl.
Qed.

Lemma split_first_app (p s : string) :
  split_first p (p +:+ s) = Some (EmptyString, s).
Proof.
  pose proof (strip_prefix_app p s) as Hp.
  destruct (p +:+ s); cbn [split_first]; by rewrite Hp.
Qed.

Lemma occurs_false_cons (c d : ascii) (s : string) :
  occurs c (String d s) = false -> c <> d /\ occurs c s = false.
Proof.
  simpl. intros [Hcd Hs]%orb_false_iff. split; [|done].
  by apply Ascii.eqb_neq.
Qed.

Lemma append_String (c : ascii) (s t : string) :
  String c s +:+ t = String c (s +:+ t).
Proof. reflexivity. Qed.

Lemma append_assoc (s t u : string) : (s +:+ t) +:+ u = s +:+ t +:+ u.
Proof. induction s as [|c s IH]; [done|]. by rewrite !append_String, IH. Qed.

Lemma append_empty (t : string) : EmptyString +:+ t = t.
Proof. reflexivity. Qed.

(** Decides the comparisons of characters in the goal, one by one. *)
Ltac compare_chars :=
  rewrite ?append_String, ?append_empty; cbn -[Ascii.eqb];
  repeat (match goal with
          | |- context [Ascii.eqb ?a ?b] =>
              destruct (Ascii.eqb_spec a b); [subst|]
          end; try discriminate; try congruence; cbn -[Ascii.eqb]);
  try congruence.

(** The admin database pattern does not start inside a text without a
    question mark that precedes it. *)
Lemma admin_not_before (pre post : string) (c : ascii) :
  occurs "?" (String c pre) = false ->
  strip_prefix "admin?authSource=admin"
    (String c pre +:+ "admin?authSource=admin" +:+ post) = None.
Proof.
  intros Hocc.
  destruct pre as [|c1 [|c2 [|c3 [|c4 [|c5 pre]]]]];
    repeat (apply occurs_false_cons in Hocc as [? Hocc]);
    compare_chars.
Qed.

Lemma split_first_admin (pre post : string) :
  occurs "?" pre = false ->
  split_first "admin?authSource=admin"
    (pre +:+ "admin?authSource=admin" +:+ post) = Some (pre, post).
Proof.
  intros Hocc. induction pre as [|c pre IH].
  - rewrite append_empty. apply split_first_app.
  - pose proof (admin_not_before pre post c Hocc) as Hno.
    apply occurs_false_cons in Hocc as [_ Hocc].
    rewrite (append_String c pre) in Hno |- *.
    cbn [split_first]. rewrite Hno. by rewrite (IH Hocc).
Qed.

Lemma strip_prefix_admin_occurs (s r : string) :
  strip_prefix "admin?authSource=admin" s = Some r -> occurs "?" s = true.
Proof.
  destruct s as [|c0 [|c1 [|c2 [|c3 [|c4 [|c5 s]]]]]]; compare_chars.
Qed.

Lemma split_first_admin_none (s : string) :
  occurs "?" s = false -> split_first "admin?authSource=admin" s = None.
Proof.
  intros Hocc. induction s as [|c s IH].
  - reflexivity.
  - cbn [split_first].
    destruct (strip_prefix "admin?authSource=admin" (String c s)) eqn:Hp.
    + apply strip_prefix_admin_occurs in Hp. congruence.
    + apply occurs_false_cons in Hocc as [_ Hocc]. by rewrite (IH Hocc).
Qed.

Lemma substitution_wallfair (before after : string) :
  substitution "admin?authSource=admin" before after
    "wallfair?authSource=admin"
  = "wallfair?authSource=admin".
Proof. reflexivity. Qed.

(** X24: for a staging or productive deployment, a connection URL whose
    first question mark is the one of [admin?authSource=admin] has that
    database name replaced by [wallfair], once, and the replica-set and TLS
    parameters with the certificate of the deployment appended; the text
    before and after is kept. *)
Theorem mongoURL_cluster (pre post environment : string) :
  occurs "?" pre = false ->
  environment = "STAGING" \/ environment = "PRODUCTIVE" ->
  mongoURL (Some (pre +:+ "admin?authSource=admin" +:+ post))
    (Some environment)
  = Ok (Some (pre +:+ "wallfair?authSource=admin" +:+ post +:+
              tls_parameters (if String.eqb environment "STAGING"
                              then "staging.crt" else "productive.crt"))).
Proof.
  intros Hocc Henv. unfold mongoURL, replace.
  rewrite (split_first_admin pre post Hocc), substitution_wallfair.
  destruct Henv as [-> | ->]; cbn [is_string String.eqb Ascii.eqb Bool.eqb];
    by rewrite !append_assoc.
Qed.

Lemma mongoURL_cluster_witness :
  mongoURL (Some "mongodb://db:27017/admin?authSource=admin&w=1")
    (Some "STAGING")
  = Ok (Some ("mongodb://db:27017/wallfair?authSource=admin&w=1" +:+
              tls_parameters "staging.crt")).
Proof.
  apply (mongoURL_cluster "mongodb://db:27017/" "&w=1" "STAGING").
  - reflexivity.
  - left. reflexivity.
Defined.

(** X25: for a staging or productive deployment, a connection URL without
    a question mark is not rewritten, and the parameters are appended to it
    all the same, starting with [&]. *)
Theorem mongoURL_without_query (url environment : string) :
  occurs "?" url = false ->
  environment = "STAGING" \/ environment = "PRODUCTIVE" ->
  mongoURL (Some url) (Some environment)
  = Ok (Some (url +:+
              tls_parameters (if String.eqb environment "STAGING"
                              then "staging.crt" else "productive.crt"))).
Proof.
  intros Hocc Henv. unfold mongoURL, replace.
  rewrite (split_first_admin_none url Hocc).
  by destruct Henv as [-> | ->].
Qed.

Lemma mongoURL_without_query_witness :
  mongoURL (Some "mongodb://db:27017/wallfair") (Some "PRODUCTIVE")
  = Ok (Some ("mongodb://db:27017/wallfair" +:+
              tls_parameters "productive.crt")).
Proof.
  apply (mongoURL_without_query "mongodb://db:27017/wallfair" "PRODUCTIVE").
  - reflexivity.
  - right. reflexivity.
Defined.


(** ** Mail codes *)

Lemma code_char (z : Z) : 0 <= z < 256 -> code (char z) = z.
Proof.
  intros Hz. unfold code, char. rewrite N_ascii_embedding; lia.
Qed.

Lemma is_digit_char (d : Z) : 0 <= d <= 9 -> is_digit (char (48 + d)) = true.
Proof.
  intros Hd. unfold is_digit. rewrite code_char by lia.
  apply andb_true_iff. split; lia.
Qed.

Lemma length_append (s t : string) :
  String.length (s +:+ t) = (String.length s + String.length t)%nat.
Proof.
  induction s as [|c s IH]; [done|]. rewrite append_String. simpl.
  by rewrite IH.
Qed.

Lemma all_digits_append (s t : string) :
  all_digits (s +:+ t) = all_digits s && all_digits t.
Proof.
  unfold all_digits. induction s as [|c s IH]; [done|].
  rewrite append_String. cbn [list_ascii_of_string forallb].
  by rewrite IH, andb_assoc.
Qed.

(** A number of [k + 1] digits is written with [k + 1] digits. *)
Lemma decimal_from_digits (k : nat) :
  forall (fuel : nat) (x : Z) (acc : string),
    (k < fuel)%nat ->
    10 ^ Z.of_nat k <= x < 10 ^ (Z.of_nat k + 1) ->
    exists ds,
      decimal_from fuel x acc = ds +:+ acc /\
      String.length ds = S k /\ all_digits ds = true.
Proof.
  induction k as [|k IH]; intros fuel x acc Hfuel Hx;
    (destruct fuel as [|fuel]; [lia|]); cbn [decimal_from].
  - change (10 ^ Z.of_nat 0) with 1 in Hx. change (10 ^ (Z.of_nat 0 + 1))
      with 10 in Hx.
    destruct (Z.ltb_spec x 10); [|lia].
    exists (String (char (48 + x mod 10)) EmptyString).
    split; [done|]. split; [done|].
    unfold all_digits. cbn [list_ascii_of_string forallb].
    rewrite is_digit_char; [done|]. pose proof (Z.mod_pos_bound x 10). lia.
  - assert (10 ^ Z.of_nat (S k) = 10 * 10 ^ Z.of_nat k) as Hpow.
    { rewrite Nat2Z.inj_succ, Z.pow_succ_r; lia. }
    assert (10 ^ (Z.of_nat (S k) + 1) = 10 * 10 ^ (Z.of_nat k + 1)) as Hpow'.
    { rewrite Nat2Z.inj_succ.
      replace (Z.succ (Z.of_nat k) + 1) with (Z.succ (Z.of_nat k + 1)) by lia.
      rewrite Z.pow_succ_r; lia. }
    assert (0 < 10 ^ Z.of_nat k) by (apply Z.pow_pos_nonneg; lia).
    destruct (Z.ltb_spec x 10); [nia|].
    destruct (IH fuel (x / 10)
                (String (char (48 + x mod 10)) acc))
      as (ds & Hds & Hlen & Hall).
    + lia.
    + split.
      * apply Z.div_le_lower_bound; lia.
      * apply Z.div_lt_upper_bound; lia.
    + exists (ds +:+ String (char (48 + x mod 10)) EmptyString).
      split; [by rewrite Hds, append_assoc|].
      split; [rewrite length_append, Hlen; simpl; lia|].
      rewrite all_digits_append, Hall. unfold all_digits.
      cbn [list_ascii_of_string forallb andb].
      rewrite is_digit_char; [done|]. pose proof (Z.mod_pos_bound x 10). lia.
Qed.

Lemma decimal_digits (k : nat) (x : Z) :
  10 ^ Z.of_nat k <= x < 10 ^ (Z.of_nat k + 1) ->
  String.length (decimal x) = S k /\ all_digits (decimal x) = true.
Proof.
  intros Hx. unfold decimal.
  destruct (decimal_from_digits k (S (Z.to_nat (Z.log2 x))) x EmptyString)
    as (ds & Hds & Hlen & Hall); [|done|].
  - assert (Z.of_nat k <= Z.log2 x); [|lia].
    apply Z.log2_le_pow2.
    + assert (0 < 10 ^ Z.of_nat k) by (apply Z.pow_pos_nonneg; lia). lia.
    + etrans; [|apply Hx]. apply Z.pow_le_mono_l. lia.
  - rewrite Hds. assert (ds +:+ EmptyString = ds) as ->; [|done].
    clear. induction ds as [|c ds IH]; [done|].
    by rewrite append_String, IH.
Qed.

Lemma substring_from_1 (c : ascii) (s : string) :
  substring_from 1 (String c s) = s.
Proof. reflexivity. Qed.

(** X26: for up to 11 digits, and any random draw but the largest one,
    [generate(n)] returns a code of exactly [n] characters, all of them
    decimal digits. *)
Theorem generate_digits (floor_random : Z -> Z) (n : nat) :
  (n <= 11)%nat ->
  0 <= floor_random (9 * 10 ^ Z.of_nat n + 1) < 9 * 10 ^ Z.of_nat n ->
  exists digits,
    generate floor_random n = generated_code digits /\
    String.length digits = n /\ all_digits digits = true.
Proof.
  intros Hn Hdraw. unfold generate.
  destruct (Z.ltb_spec (12 - 1) (Z.of_nat n)); [lia|].
  assert (0 < 10 ^ Z.of_nat n) by (apply Z.pow_pos_nonneg; lia).
  assert (10 ^ (Z.of_nat n + 1) = 10 * 10 ^ Z.of_nat n) as Hpow.
  { rewrite Z.pow_add_r by lia. lia. }
  rewrite Hpow. rewrite (Z.mul_comm 10), Z.div_mul by lia.
  replace (10 ^ Z.of_nat n * 10 - 10 ^ Z.of_nat n + 1)
    with (9 * 10 ^ Z.of_nat n + 1) by lia.
  set (number := floor_random (9 * 10 ^ Z.of_nat n + 1) + 10 ^ Z.of_nat n).
  destruct (decimal_digits n number) as [Hlen Hall].
  { rewrite Hpow. subst number. lia. }
  eexists. split; [done|].
  destruct (decimal number) as [|c s]; [done|].
  change (Z.to_nat 1) with 1%nat. rewrite substring_from_1.
  split; [simpl in Hlen; lia|].
  unfold all_digits in *. cbn [list_ascii_of_string forallb] in Hall.
  by apply andb_true_iff in Hall as [_ ?].
Qed.

Lemma generate_digits_witness :
  exists digits,
    generate (fun _ => 123456) 6 = generated_code digits /\
    String.length digits = 6%nat /\ all_digits digits = true.
Proof.
  apply (generate_digits (fun _ => 123456) 6).
  - lia.
  - simpl. lia.
Defined.

Lemma zeros_snoc (m : nat) (acc : string) :
  zeros m +:+ String "0" acc = String "0" (zeros m +:+ acc).
Proof.
  induction m as [|m IH]; [done|]. simpl zeros.
  by rewrite !append_String, IH.
Qed.

Lemma decimal_from_pow10 (m : nat) :
  forall (fuel : nat) (acc : string),
    (m < fuel)%nat ->
    decimal_from fuel (10 ^ Z.of_nat m) acc = String "1" (zeros m) +:+ acc.
Proof.
  induction m as [|m IH]; intros fuel acc Hfuel;
    (destruct fuel as [|fuel]; [lia|]); cbn [decimal_from].
  - reflexivity.
  - assert (10 ^ Z.of_nat (S m) = 10 ^ Z.of_nat m * 10) as ->.
    { rewrite Nat2Z.inj_succ, Z.pow_succ_r; lia. }
    assert (0 < 10 ^ Z.of_nat m) by (apply Z.pow_pos_nonneg; lia).
    destruct (Z.ltb_spec (10 ^ Z.of_nat m * 10) 10); [lia|].
    rewrite Z.mod_mul, Z.div_mul by lia.
    rewrite IH by lia. change (char (48 + 0)) with "0"%char.
    rewrite !append_String. f_equal. simpl zeros. apply zeros_snoc.
Qed.

Lemma decimal_pow10 (m : nat) :
  decimal (10 ^ Z.of_nat m) = String "1" (zeros m).
Proof.
  unfold decimal. rewrite decimal_from_pow10.
  - rewrite append_String. f_equal. clear.
    induction m as [|m IH]; [done|]. simpl zeros.
    by rewrite append_String, IH.
  - assert (Z.of_nat m <= Z.log2 (10 ^ Z.of_nat m)); [|lia].
    apply Z.log2_le_pow2; [apply Z.pow_pos_nonneg; lia|].
    apply Z.pow_le_mono_l. lia.
Qed.

(** X27: for up to 11 digits, on the largest random draw [generate(n)]
    returns [n + 1] zeros, one character more than asked for. *)
Theorem generate_top_draw (floor_random : Z -> Z) (n : nat) :
  (n <= 11)%nat ->
  floor_random (9 * 10 ^ Z.of_nat n + 1) = 9 * 10 ^ Z.of_nat n ->
  generate floor_random n = generated_code (zeros (S n)).
Proof.
  intros Hn Hdraw. unfold generate.
  destruct (Z.ltb_spec (12 - 1) (Z.of_nat n)); [lia|].
  assert (0 < 10 ^ Z.of_nat n) by (apply Z.pow_pos_nonneg; lia).
  assert (10 ^ (Z.of_nat n + 1) = 10 * 10 ^ Z.of_nat n) as Hpow.
  { rewrite Z.pow_add_r by lia. lia. }
  rewrite Hpow. rewrite (Z.mul_comm 10), Z.div_mul by lia.
  replace (10 ^ Z.of_nat n * 10 - 10 ^ Z.of_nat n + 1)
    with (9 * 10 ^ Z.of_nat n + 1) by lia.
  rewrite Hdraw.
  replace (9 * 10 ^ Z.of_nat n + 10 ^ Z.of_nat n)
    with (10 ^ Z.of_nat (S n)).
  - by rewrite decimal_pow10.
  - rewrite Nat2Z.inj_succ, Z.pow_succ_r; lia.
Qed.

Lemma generate_top_draw_witness :
  generate (fun m => m - 1) 6 = generated_code "0000000".
Proof.
  apply (generate_top_draw (fun m => m - 1) 6).
  - lia.
  - reflexivity.
Defined.

(** X28: a code of more than 11 digits cannot be generated: the call
    reaches for the name [generate], which is not bound, whatever the random
    draw. *)
Theorem generate_too_long (floor_random : Z -> Z) (n : nat) :
  (11 < n)%nat ->
  generate floor_random n = generate_is_not_defined.
Proof.
  intros Hn. unfold generate.
  by destruct (Z.ltb_spec (12 - 1) (Z.of_nat n)); [|lia].
Qed.

Lemma generate_too_long_witness :
  generate (fun _ => 0) 12 = generate_is_not_defined.
Proof. apply (generate_too_long (fun _ => 0) 12). lia. Defined.

(** ** Ranks as counts *)

Lemma find_ranked_NoDup_fmap {B} (f : User -> B) (w : World) :
  NoDup (f <$> users w) -> NoDup (f <$> find_ranked w).
Proof.
  intros Hnd. unfold find_ranked. rewrite merge_sort_Permutation.
  eapply sublist_NoDup; [exact Hnd|]. apply fmap_sublist, sublist_filter.
Qed.

Lemma find_ranked_sorted (w : World) :
  StronglySorted ranks_before (find_ranked w).
Proof. unfold find_ranked. apply (StronglySorted_merge_sort _). Qed.

Lemma filter_all {A} (P : A -> Prop) `{!forall x, Decision (P x)}
    (l : list A) :
  Forall P l -> filter P l = l.
Proof.
  induction 1 as [|x l Hx _ IH]; [done|].
  by rewrite filter_cons_True, IH.
Qed.

Lemma filter_none {A} (P : A -> Prop) `{!forall x, Decision (P x)}
    (l : list A) :
  Forall (fun x => ~ P x) l -> filter P l = [].
Proof.
  induction 1 as [|x l Hx _ IH]; [done|].
  by rewrite filter_cons_False, IH.
Qed.

(** In the sorted list, the users ahead of the one at position [i] are the
    [i] users placed before it, when no two users registered at the same
    time. *)
Lemma ahead_of_position (w : World) (i : nat) (u : User) :
  NoDup (date <$> users w) ->
  find_ranked w !! i = Some u ->
  length (filter (ahead_of u) (find_ranked w)) = i.
Proof.
  intros Hnd Hi.
  pose proof (find_ranked_sorted w) as Hs.
  apply (find_ranked_NoDup_fmap date) in Hnd.
  assert (i < length (find_ranked w))%nat as Hlen
    by (apply lookup_lt_is_Some; eauto).
  rewrite <-(take_drop_middle _ i u Hi) at 1.
  rewrite filter_app, filter_cons_False.
  2:{ unfold ahead_of. lia. }
  rewrite filter_all, filter_none.
  - rewrite app_nil_r, length_take. lia.
  - apply Forall_forall. intros v Hv.
    apply list_elem_of_lookup in Hv as [j Hj]. rewrite lookup_drop in Hj.
    pose proof (StronglySorted_lookup _ _ _ _ _ _ Hs Hi Hj) as Hr.
    unfold ranks_before in Hr. unfold ahead_of. lia.
  - apply Forall_forall. intros v Hv.
    apply elem_of_take in Hv as (j & Hj & Hlt).
    pose proof (StronglySorted_lookup _ _ _ _ _ _ Hs Hj Hi Hlt) as Hr.
    assert (date v <> date u) as Hne.
    { intros Heq.
      assert (j = i); [|lia].
      apply (NoDup_lookup (date <$> find_ranked w) j i (date u)); [done|..].
      - by rewrite list_lookup_fmap, Hj, <-Heq.
      - by rewrite list_lookup_fmap, Hi. }
    unfold ranks_before in Hr. unfold ahead_of. lia.
Qed.

Lemma ranked_ahead_length (w : World) (u : User) :
  length (ranked_ahead u w) = length (filter (ahead_of u) (find_ranked w)).
Proof.
  unfold ranked_ahead, find_ranked. apply Permutation_length.
  by rewrite merge_sort_Permutation.
Qed.

Lemma getRankByUserId_count (w : World) (u : User) :
  NoDup (_id <$> users w) ->
  NoDup (date <$> users w) ->
  u ∈ users w ->
  is_Some (username u) ->
  exists r,
    getRankByUserId (_id u) w = (Ok r, w) /\
    rank r = Z.of_nat (length (ranked_ahead u w)) + 1.
Proof.
  intros Hid Hdate Hu Hname.
  destruct (find_ranked_position w u Hu Hname) as [i Hi].
  eexists. split; [by apply getRankByUserId_at|]. simpl.
  by rewrite ranked_ahead_length, (ahead_of_position w i u).
Qed.

(** X29 (getRankByUserId): when ids are unique and no two users registered at
    the same time, the rank of a user with a username is one more than the
    number of users with a username who have won more, or as much and
    registered later. *)
Theorem getRankByUserId_counts_ahead (w : World) (u : User) :
  NoDup (_id <$> users w) ->
  NoDup (date <$> users w) ->
  u ∈ users w ->
  is_Some (username u) ->
  exists r,
    getRankByUserId (_id u) w = (Ok r, w) /\
    rank r = Z.of_nat (length (ranked_ahead u w)) + 1.
Proof. apply getRankByUserId_count. Qed.

Lemma getRankByUserId_counts_ahead_witness :
  exists r,
    getRankByUserId "C" leaderboard = (Ok r, leaderboard) /\
    rank r
    = Z.of_nat (length (ranked_ahead (sample_user "C" 50 3) leaderboard)) + 1.
Proof.
  apply (getRankByUserId_counts_ahead leaderboard (sample_user "C" 50 3)).
  - apply (bool_decide_unpack _). reflexivity.
  - apply (bool_decide_unpack _). reflexivity.
  - apply list_elem_of_In. simpl. auto.
  - simpl. eauto.
Defined.

Lemma find_elem_of_NoDup (us : list User) (u : User) :
  NoDup (_id <$> us) -> u ∈ us -> List.find (has_id (_id u)) us = Some u.
Proof.
  induction us as [|x us IH]; intros Hnd Hu; [by apply elem_of_nil in Hu|].
  rewrite fmap_cons in Hnd. apply NoDup_cons in Hnd as [Hx Hnd]. simpl.
  destruct (has_id (_id u) x) eqn:Hid.
  - apply has_id_true in Hid. apply elem_of_cons in Hu as [->|Hu]; [done|].
    exfalso. apply Hx. rewrite Hid. by apply list_elem_of_fmap_2.
  - apply has_id_false in Hid. apply elem_of_cons in Hu as [->|Hu]; [done|].
    by apply IH.
Qed.

Lemma update_by_id_fmap {B} (g : User -> B) id f us :
  (forall u, g (f u) = g u) ->
  g <$> update_by_id id f us = g <$> us.
Proof.
  intros Hg. induction us as [|u us IH]; simpl; [done|].
  destruct (has_id id u); rewrite !fmap_cons; [by rewrite Hg|].
  by rewrite IH.
Qed.

Lemma length_filter_mono {A} (P Q : A -> Prop)
    `{!forall x, Decision (P x)} `{!forall x, Decision (Q x)} (l : list A) :
  (forall x, P x -> Q x) ->
  (length (filter P l) <= length (filter Q l))%nat.
Proof.
  intros HPQ. induction l as [|x l IH]; [done|].
  rewrite !filter_cons. destruct (decide (P x)) as [HP|HP].
  - rewrite decide_True by auto. simpl. lia.
  - destruct (decide (Q x)); simpl; lia.
Qed.

(** Saving a larger amount for [u] leaves no more users ahead of it. *)
Lemma ranked_ahead_update (us : list User) (u : User) (amount : Z) :
  0 <= amount ->
  (forall x, x ∈ us -> _id x = _id u -> x = u) ->
  let u' := set_amountWon (amountWon u + amount) u in
  (length
     (filter (ahead_of u')
        (filter (fun v => is_Some (username v))
           (update_by_id (_id u) (set_amountWon (amountWon u + amount)) us)))
   <= length
        (filter (ahead_of u) (filter (fun v => is_Some (username v)) us)))%nat.
Proof.
  intros Hamount Hsame u'.
  assert (forall v, ahead_of u' v -> ahead_of u v) as Hweaker.
  { intros v. unfold ahead_of, u'. destruct u. simpl. lia. }
  assert (~ ahead_of u' u') as Hself by (unfold ahead_of; lia).
  induction us as [|x us IH]; simpl; [done|].
  destruct (has_id (_id u) x) eqn:Hid.
  - apply has_id_true in Hid.
    assert (x = u) as -> by (apply Hsame; [apply elem_of_cons; auto|done]).
    fold u'. rewrite !filter_cons.
    assert (~ ahead_of u u) by (unfold ahead_of; lia).
    destruct (decide (is_Some (username u'))),
      (decide (is_Some (username u)));
      rewrite ?filter_cons, ?decide_False by done; simpl.
    all: try (by destruct u).
    all: pose proof (length_filter_mono (ahead_of u') (ahead_of u)
                       (filter (fun v => is_Some (username v)) us) Hweaker).
    all: simpl; lia.
  - rewrite !filter_cons.
    assert (forall y, y ∈ us -> _id y = _id u -> y = u) as Hsame'
      by (intros y Hy; apply Hsame, elem_of_cons; auto).
    specialize (IH Hsame').
    destruct (decide (is_Some (username x))); [|done].
    rewrite !filter_cons.
    destruct (decide (ahead_of u' x)) as [Ha|Ha].
    + rewrite decide_True by auto. simpl. lia.
    + destruct (decide (ahead_of u x)); simpl; lia.
Qed.

(** X30 (increaseAmountWon, getRankByUserId): when ids are unique and no two
    users registered at the same time, adding a non-negative amount to a user
    with a username never gives that user a worse rank. *)
Theorem increaseAmountWon_keeps_rank (w : World) (u : User) (amount : Z) :
  NoDup (_id <$> users w) ->
  NoDup (date <$> users w) ->
  u ∈ users w ->
  is_Some (username u) ->
  0 <= amount ->
  let w' := snd (increaseAmountWon (_id u) amount w) in
  exists r r',
    getRankByUserId (_id u) w = (Ok r, w) /\
    getRankByUserId (_id u) w' = (Ok r', w') /\
    rank r' <= rank r.
Proof.
  intros Hid Hdate Hu Hname Hamount. cbv zeta.
  assert (findById (_id u) w = Some u) as Hfind
    by (by apply find_elem_of_NoDup).
  rewrite (increaseAmountWon_adds _ _ _ _ Hfind). simpl.
  set (f := set_amountWon (amountWon u + amount)).
  set (w' := with_users (update_by_id (_id u) f (users w)) w).
  destruct (getRankByUserId_count w u Hid Hdate Hu Hname) as (r & Hr & Hrank).
  destruct (saved_collection (_id u) f w u) as (Hfind' & _ & Hids);
    [done|done|]. fold w' in Hfind', Hids.
  destruct (getRankByUserId_count w' (f u)) as (r' & Hr' & Hrank').
  - by rewrite Hids.
  - unfold w'. simpl. by rewrite update_by_id_fmap.
  - unfold findById in Hfind'. apply find_some in Hfind' as [Hin _].
    by apply list_elem_of_In.
  - done.
  - exists r, r'. split; [done|]. split; [exact Hr'|].
    rewrite Hrank, Hrank'. unfold ranked_ahead, w'. simpl.
    pose proof (ranked_ahead_update (users w) u amount Hamount) as Hle.
    cbv zeta in Hle. fold f in Hle.
    assert (forall x, x ∈ users w -> _id x = _id u -> x = u) as Hsame.
    { intros x Hx Heq.
      pose proof (find_elem_of_NoDup (users w) x Hid Hx) as Hfx.
      rewrite Heq in Hfx. unfold findById in Hfind. congruence. }
    specialize (Hle Hsame). lia.
Qed.

Lemma increaseAmountWon_keeps_rank_witness :
  let w' := snd (increaseAmountWon "C" 60 leaderboard) in
  exists r r',
    getRankByUserId "C" leaderboard = (Ok r, leaderboard) /\
    getRankByUserId "C" w' = (Ok r', w') /\
    rank r' <= rank r.
Proof.
  apply (increaseAmountWon_keeps_rank leaderboard (sample_user "C" 50 3) 60).
  - apply (bool_decide_unpack _). reflexivity.
  - apply (bool_decide_unpack _). reflexivity.
  - apply list_elem_of_In. simpl. auto.
  - simpl. eauto.
  - lia.
Defined.

(** ** Ties *)

(** X31 (getRankByUserId): with unique ids, a user with a username whose
    score equals the score of the user directly above gets 0 as [toNextRank],
    whatever scores stand further above: [lastDiffAmount] is assigned the
    score of every user scanned, so it holds the score of the user above and
    not the last score that differs. *)
Theorem getRankByUserId_tied (w : World) (j : nat) (u above : User) :
  NoDup (_id <$> users w) ->
  find_ranked w !! S j = Some u ->
  find_ranked w !! j = Some above ->
  amountWon above = amountWon u ->
  getRankByUserId (_id u) w
  = (Ok {| rank := Z.of_nat (S j) + 1; toNextRank := 0 |}, w).
Proof.
  intros Hnd Hu Hj Heq. rewrite (getRankByUserId_at w (S j) u Hnd Hu).
  do 3 f_equal. unfold gap_above. rewrite Hj, Hu. lia.
Qed.

Lemma getRankByUserId_tied_witness :
  getRankByUserId "Z" tied_board
  = (Ok {| rank := 3; toNextRank := 0 |}, tied_board) /\
  previous_distinct_score (find_ranked tied_board) 2 = Some 100.
Proof.
  split; [|reflexivity].
  apply (getRankByUserId_tied tied_board 1 (sample_user "Z" 50 2)
           (sample_user "Y" 50 3)).
  - apply (bool_decide_unpack _). reflexivity.
  - reflexivity.
  - reflexivity.
  - reflexivity.
Defined.
